(** * adsync: group membership synchronisation against a directory server

    A shallow embedding of the Go program [adsync] (package [main]):
    [main], [writeInfo], [writeError], [listADUsers], [listGroupUsers],
    [synchronizeGroup] and [addUserToGroup], together with the
    [Configuration] struct.

    The program talks to three things that are not part of its source:
    the LDAP client library (go-ldap), the configuration library (viper)
    and the Go runtime (strings, filepath, os, time).  They are taken as
    interfaces ([LdapClient], [GoLib]) and every statement below holds for
    all their implementations; small concrete instances at the end of the
    file are used to run the program on examples.

    Go's [panic] is the [Panic] outcome of the monad [M]; a deferred call
    is the combinator [defer], which runs the deferred action when the
    body returns and when it panics. *)

From stdpp Require Import gmap strings list pretty.

Open Scope string_scope.
Open Scope list_scope.

(** ** Data: configuration.go *)

Record ActiveDirectoryConfig := {
  Host : string;
  Domain : string;
  Username : string;
  Password : string;
  UserDN : string;
  GroupDN : string;
  Group : string
}.

Record LoggingConfig := {
  Enabled : bool;
  Location : string
}.

Record Configuration := {
  ActiveDirectory : ActiveDirectoryConfig;
  Logging : LoggingConfig
}.

(** The zero value of [Configuration], which the global [config] holds
    until [viper.Unmarshal] has filled it. *)
Definition zeroConfiguration : Configuration :=
  {| ActiveDirectory :=
       {| Host := ""; Domain := ""; Username := ""; Password := "";
          UserDN := ""; GroupDN := ""; Group := "" |};
     Logging := {| Enabled := false; Location := "" |} |}.

(** ** Data: the parts of go-ldap the program touches *)

Record EntryAttribute := {
  Name : string;
  Values : list string
}.

Record Entry := {
  DN : string;
  Attributes : list EntryAttribute
}.

Record SearchResult := {
  Entries : list Entry
}.

Inductive SearchScope := ScopeBaseObject | ScopeSingleLevel | ScopeWholeSubtree.

Record SearchRequest := {
  req_BaseDN : string;
  req_Scope : SearchScope;
  req_Filter : string;
  req_Attributes : list string
}.

(** [ldap.NewModifyRequest] followed by [Add]: the entry's name and the
    list of (attribute, values) additions. *)
Record ModifyRequest := {
  mod_DN : string;
  mod_Add : list (string * list string)
}.

(** A value a configuration key can hold: what a JSON file or a
    [viper.SetDefault] call can put there. *)
Inductive Value :=
| VString (s : string)
| VBool (b : bool)
| VNumber (n : Z)
| VOther.

(** ** The interfaces of the libraries *)

(** The LDAP client as the program sees it.  [Server] is the state of the
    network and of the directory; every call may change it.  An error is
    its message. *)
Class LdapClient (Server Conn : Type) := {
  ldap_DialURL : string → Server → (string + Conn) * Server;
  ldap_Bind : Conn → string → string → Server → option string * Server;
  ldap_Search : Conn → SearchRequest → Server → (string + SearchResult) * Server;
  ldap_Modify : Conn → ModifyRequest → Server → option string * Server;
  ldap_Close : Conn → Server → Server
}.

(** The Go standard library and viper's decoder. *)
Class GoLib := {
  ToUpper : string → string;
  Join : string → string → string;
  decodeString : Value → string + string;
  decodeBool : Value → string + bool
}.

(** What the start-up of the program relies on in viper's decoder: a
    string decodes to itself as a string, a boolean to itself as a
    boolean. *)
Class DecoderLaws `{GoLib} : Prop := {
  decodeString_VString s : decodeString (VString s) = inr s;
  decodeBool_VBool b : decodeBool (VBool b) = inr b
}.

(** What [main] finds on the machine when it starts: the outcome of
    [viper.ReadInConfig] (an error, or the keys of the file, lower-cased
    and dotted), the date, and the outcome of opening a log file. *)
Record Machine := {
  ReadInConfig : string + gmap string Value;
  Today : nat * nat * nat;
  OpenFile : string → option string
}.

(** ** Observable events *)

Inductive Function :=
| FlistADUsers
| FlistGroupUsers
| FsynchronizeGroup
| FaddUserToGroup (name : string).

Record Logger := { prefix : string }.

(** What a run does, in order: the calls into the LDAP client with
    their answers, and the lines written to the log.  [EvEnter f] marks
    the call of the function [f] of the program; it stands for nothing
    the program outputs and only lets statements speak of calls. *)
Inductive Event (Conn : Type) :=
| EvEnter (f : Function)
| EvDial (url : string) (r : string + Conn)
| EvBind (l : Conn) (username password : string) (r : option string)
| EvSearch (l : Conn) (req : SearchRequest) (r : string + SearchResult)
| EvModify (l : Conn) (req : ModifyRequest) (r : option string)
| EvClose (l : Conn)
| EvLog (lg : Logger) (msg : string).

Arguments EvEnter {Conn} f.
Arguments EvDial {Conn} url r.
Arguments EvBind {Conn} l username password r.
Arguments EvSearch {Conn} l req r.
Arguments EvModify {Conn} l req r.
Arguments EvClose {Conn} l.
Arguments EvLog {Conn} lg msg.

(** The value a panic carries: the error passed to [panic], the string
    [log.Logger.Panic] panics with, or a run-time error. *)
Inductive PanicValue :=
| PanicError (msg : string)
| PanicString (msg : string)
| PanicRuntime (msg : string).

Inductive Result (A : Type) :=
| Ok (a : A)
| Panic (p : PanicValue).

Arguments Ok {A} a.
Arguments Panic {A} p.

(** [strconv.Itoa] on a non-negative number. *)
Definition Itoa (n : nat) : string := pretty n.

(** Index expression [xs[i]] of Go: out of range is a run-time panic. *)
Definition indexError : PanicValue := PanicRuntime "index out of range".

Section Program.

Context {Server Conn : Type} `{!LdapClient Server Conn} `{!GoLib}.

(** ** The package-level variables, the directory and the event log *)

Record State := {
  config : Configuration;
  errorLogger : option Logger;
  infoLogger : option Logger;
  adUsers : list string;
  groupUsers : list string;
  server : Server;
  trace : list (Event Conn)
}.

Definition initial (srv : Server) : State :=
  {| config := zeroConfiguration; errorLogger := None; infoLogger := None;
     adUsers := []; groupUsers := []; server := srv; trace := [] |}.

Definition emit (e : Event Conn) (s : State) : State :=
  {| config := config s; errorLogger := errorLogger s;
     infoLogger := infoLogger s; adUsers := adUsers s;
     groupUsers := groupUsers s; server := server s;
     trace := trace s ++ [e] |}.

Definition set_server (srv : Server) (s : State) : State :=
  {| config := config s; errorLogger := errorLogger s;
     infoLogger := infoLogger s; adUsers := adUsers s;
     groupUsers := groupUsers s; server := srv; trace := trace s |}.

Definition set_adUsers (l : list string) (s : State) : State :=
  {| config := config s; errorLogger := errorLogger s;
     infoLogger := infoLogger s; adUsers := l;
     groupUsers := groupUsers s; server := server s; trace := trace s |}.

Definition set_groupUsers (l : list string) (s : State) : State :=
  {| config := config s; errorLogger := errorLogger s;
     infoLogger := infoLogger s; adUsers := adUsers s;
     groupUsers := l; server := server s; trace := trace s |}.

Definition set_config (c : Configuration) (s : State) : State :=
  {| config := c; errorLogger := errorLogger s;
     infoLogger := infoLogger s; adUsers := adUsers s;
     groupUsers := groupUsers s; server := server s; trace := trace s |}.

Definition set_loggers (e i : option Logger) (s : State) : State :=
  {| config := config s; errorLogger := e; infoLogger := i;
     adUsers := adUsers s; groupUsers := groupUsers s;
     server := server s; trace := trace s |}.

(** ** The monad of the program: state and panics *)

Definition M (A : Type) : Type := State → Result A * State.

Definition ret {A} (a : A) : M A := fun s => (Ok a, s).

Definition bind {A B} (m : M A) (k : A → M B) : M B :=
  fun s => match m s with
           | (Ok a, s') => k a s'
           | (Panic p, s') => (Panic p, s')
           end.

Definition panic {A} (p : PanicValue) : M A := fun s => (Panic p, s).

Definition gets {A} (f : State → A) : M A := fun s => (Ok (f s), s).

Definition modify (f : State → State) : M unit := fun s => (Ok tt, f s).

(** [defer d; body]: [d] runs when [body] is left, by return or by panic,
    and the outcome of [body] stands. *)
Definition defer {A} (d : State → State) (body : M A) : M A :=
  fun s => match body s with (r, s') => (r, d s') end.

#[global] Instance M_ret : MRet M := @ret.
#[global] Instance M_bind : MBind M := fun A B k m => bind m k.

(** [for _, x := range xs { body x }] *)
Fixpoint forRange {A} (xs : list A) (body : A → M unit) : M unit :=
  match xs with
  | [] => ret tt
  | x :: xs' => body x;; forRange xs' body
  end.

(** [xs[i]] *)
Definition index {A} (xs : list A) (i : nat) : M A :=
  match xs !! i with
  | Some x => ret x
  | None => panic indexError
  end.

(** Calls into the LDAP client, each recorded in the trace. *)
Definition DialURL (url : string) : M (string + Conn) :=
  fun s => match ldap_DialURL url (server s) with
           | (r, srv) => (Ok r, emit (EvDial url r) (set_server srv s))
           end.

Definition Bind (l : Conn) (username password : string) : M (option string) :=
  fun s => match ldap_Bind l username password (server s) with
           | (r, srv) => (Ok r, emit (EvBind l username password r) (set_server srv s))
           end.

Definition Search (l : Conn) (req : SearchRequest) : M (string + SearchResult) :=
  fun s => match ldap_Search l req (server s) with
           | (r, srv) => (Ok r, emit (EvSearch l req r) (set_server srv s))
           end.

Definition Modify (l : Conn) (req : ModifyRequest) : M (option string) :=
  fun s => match ldap_Modify l req (server s) with
           | (r, srv) => (Ok r, emit (EvModify l req r) (set_server srv s))
           end.

Definition Close (l : Conn) (s : State) : State :=
  emit (EvClose l) (set_server (ldap_Close l (server s)) s).

(** ** The program *)

Definition writeInfo (msg : string) : M unit :=
  fun s => match infoLogger s with
           | Some lg => (Ok tt, emit (EvLog lg msg) s)
           | None => (Ok tt, s)
           end.

(** [writeError] never returns: with a logger it logs and panics inside
    [errorLogger.Panic], without one it reaches [panic(err)]. *)
Definition writeError {A} (err : string) : M A :=
  fun s => match errorLogger s with
           | Some lg => (Panic (PanicString err), emit (EvLog lg err) s)
           | None => (Panic (PanicError err), s)
           end.

Definition ldapURL (host : string) : string := "ldap://" +:+ host +:+ ":389".

Definition bindName (c : Configuration) : string :=
  Domain (ActiveDirectory c) +:+ "\" +:+ Username (ActiveDirectory c).

Definition userSearch (c : Configuration) : SearchRequest :=
  {| req_BaseDN := UserDN (ActiveDirectory c);
     req_Scope := ScopeSingleLevel;
     req_Filter := "(&(objectClass=user))";
     req_Attributes := ["distinguishedName"] |}.

Definition groupSearch (c : Configuration) : SearchRequest :=
  {| req_BaseDN := GroupDN (ActiveDirectory c);
     req_Scope := ScopeSingleLevel;
     req_Filter := "(&(objectClass=group)(cn=" +:+ Group (ActiveDirectory c) +:+ "))";
     req_Attributes := ["member"] |}.

Definition groupModify (c : Configuration) (name : string) : ModifyRequest :=
  {| mod_DN := "cn=" +:+ Group (ActiveDirectory c) +:+ "," +:+ GroupDN (ActiveDirectory c);
     mod_Add := [("member", [name])] |}.

(** [adUsers = append(adUsers, strings.ToUpper(x.Attributes[0].Values[0]))] *)
Definition appendUser (x : Entry) : M unit :=
  a ← index (Attributes x) 0;
  v ← index (Values a) 0;
  modify (fun s => set_adUsers (adUsers s ++ [ToUpper v]) s).

(** [groupUsers = append(groupUsers, strings.ToUpper(x))] *)
Definition appendMember (x : string) : M unit :=
  modify (fun s => set_groupUsers (groupUsers s ++ [ToUpper x]) s).

(** Populate the adUsers slice with a list of usernames *)
Definition listADUsers : M unit :=
  modify (emit (EvEnter FlistADUsers));;
  c ← gets config;
  d ← DialURL (ldapURL (Host (ActiveDirectory c)));
  match d with
  | inl err => writeError ("unable to connect to AD server: " +:+ err)
  | inr l =>
    defer (Close l) (
      b ← Bind l (bindName c) (Password (ActiveDirectory c));
      match b with
      | Some err => writeError ("unable to bind to ldap: " +:+ err)
      | None =>
        r ← Search l (userSearch c);
        match r with
        | inl err => writeError ("ldap search error: " +:+ err)
        | inr result =>
          (if bool_decide (0 < length (Entries result)) then
             forRange (Entries result) appendUser
           else writeError "no results returned from ldap search");;
          us ← gets adUsers;
          writeInfo (Itoa (length us) +:+ " records retrieved")
        end
      end)
  end.

(** Populate the groupUsers slice with a list of usernames *)
Definition listGroupUsers : M unit :=
  modify (emit (EvEnter FlistGroupUsers));;
  c ← gets config;
  d ← DialURL (ldapURL (Host (ActiveDirectory c)));
  match d with
  | inl err => writeError ("unable to connect to AD server: " +:+ err)
  | inr l =>
    defer (Close l) (
      b ← Bind l (bindName c) (Password (ActiveDirectory c));
      match b with
      | Some err => writeError ("unable to bind to ldap: " +:+ err)
      | None =>
        r ← Search l (groupSearch c);
        match r with
        | inl err => writeError ("ldap search error: " +:+ err)
        | inr result =>
          e ← index (Entries result) 0;
          a ← index (Attributes e) 0;
          forRange (Values a) appendMember;;
          us ← gets groupUsers;
          writeInfo (Itoa (length us) +:+ " users in group")
        end
      end)
  end.

(** Add a user to the group *)
Definition addUserToGroup (name : string) : M unit :=
  modify (emit (EvEnter (FaddUserToGroup name)));;
  c ← gets config;
  d ← DialURL (ldapURL (Host (ActiveDirectory c)));
  match d with
  | inl err => writeError ("unable to connect to AD server: " +:+ err)
  | inr l =>
    defer (Close l) (
      b ← Bind l (bindName c) (Password (ActiveDirectory c));
      match b with
      | Some err => writeError ("unable to bind to ldap: " +:+ err)
      | None =>
        m ← Modify l (groupModify c name);
        match m with
        | Some err => writeError ("ldap modify error: " +:+ err)
        | None => writeInfo (name +:+ " added to group")
        end
      end)
  end.

(** The inner loop of [synchronizeGroup]: [found] after the scan of
    [groupUsers], which stops at the first equal element. *)
Fixpoint found (x : string) (ys : list string) : bool :=
  match ys with
  | [] => false
  | y :: ys' => if String.eqb x y then true else found x ys'
  end.

(** [for _, y := range groupUsers { if x == y { found = true; break } }];
    [if !found { addUserToGroup(x) }] *)
Definition syncStep (x : string) : M unit :=
  gs ← gets groupUsers;
  if negb (found x gs) then addUserToGroup x else ret tt.

(** Look for users that aren't a member of the group *)
Definition synchronizeGroup : M unit :=
  modify (emit (EvEnter FsynchronizeGroup));;
  us ← gets adUsers;
  forRange us syncStep.

(** ** Start-up: viper and the log file *)

(** The three [viper.SetDefault] calls of [main], in order. *)
Definition defaults : gmap string Value :=
  <["activedirectory.host" := VString "127.0.0.1"]>
    (<["logging.location" := VString "."]>
       (<["logging.enabled" := VBool false]> ∅)).

(** [viper.Get]: the file's value when the file has the key, the default
    otherwise. *)
Definition viperGet (file : gmap string Value) (key : string) : option Value :=
  match file !! key with
  | Some v => Some v
  | None => defaults !! key
  end.

(** One field of [viper.Unmarshal]: a key with no value leaves the
    field at its zero value. *)
Definition field {T} (dec : Value → string + T) (zero : T)
    (v : option Value) : string + T :=
  match v with
  | Some v => dec v
  | None => inr zero
  end.

Definition andThen {E A B} (r : E + A) (k : A → E + B) : E + B :=
  match r with
  | inl e => inl e
  | inr a => k a
  end.

(** [viper.Unmarshal(&config)]: every field of [Configuration] decoded
    from its key; the first field that does not decode is the error. *)
Definition Unmarshal (file : gmap string Value) : string + Configuration :=
  let str key := field decodeString "" (viperGet file key) in
  andThen (str "activedirectory.host") (fun host =>
  andThen (str "activedirectory.domain") (fun domain =>
  andThen (str "activedirectory.username") (fun username =>
  andThen (str "activedirectory.password") (fun password =>
  andThen (str "activedirectory.userdn") (fun userdn =>
  andThen (str "activedirectory.groupdn") (fun groupdn =>
  andThen (str "activedirectory.group") (fun group =>
  andThen (field decodeBool false (viperGet file "logging.enabled")) (fun enabled =>
  andThen (str "logging.location") (fun location =>
  inr {| ActiveDirectory :=
           {| Host := host; Domain := domain; Username := username;
              Password := password; UserDN := userdn; GroupDN := groupdn;
              Group := group |};
         Logging := {| Enabled := enabled; Location := location |} |}))))))))).

(** [main] up to and including [viper.Unmarshal]: the configuration, or
    the value [main] panics with. *)
Definition loadConfig (m : Machine) : Result Configuration :=
  match ReadInConfig m with
  | inl err => Panic (PanicError ("unable to read config file: " +:+ err))
  | inr file =>
    match Unmarshal file with
    | inl err => Panic (PanicError ("config file is corrupt: " +:+ err))
    | inr c => Ok c
    end
  end.

(** The keys of the string fields of [Configuration]. *)
Definition stringKeys : list string :=
  ["activedirectory.host"; "activedirectory.domain";
   "activedirectory.username"; "activedirectory.password";
   "activedirectory.userdn"; "activedirectory.groupdn";
   "activedirectory.group"; "logging.location"].

(** A file is well formed when the value of every key it has decodes
    into the field of that key. *)
Definition wellFormed (file : gmap string Value) : Prop :=
  (∀ key v, key ∈ stringKeys → file !! key = Some v →
            ∃ s, decodeString v = inr s)
  ∧ (∀ v, file !! "logging.enabled" = Some v → ∃ b, decodeBool v = inr b).

Definition logfilename (today : nat * nat * nat) : string :=
  "adsync" +:+ Itoa today.1.1 +:+ Itoa today.1.2 +:+ Itoa today.2 +:+ ".log".

(** The [if config.Logging.Enabled] block of [main]. *)
Definition openLog (m : Machine) : M unit :=
  c ← gets config;
  if Enabled (Logging c) then
    match OpenFile m (Join (Location (Logging c)) (logfilename (Today m))) with
    | Some err => panic (PanicError ("failed to open log file: " +:+ err))
    | None => modify (set_loggers (Some {| prefix := "ERROR: " |})
                                  (Some {| prefix := "INFO: " |}))
    end
  else ret tt.

(** The three phases at the end of [main]. *)
Definition phases : M unit :=
  writeInfo "Loading the list of users from Active Directory";;
  listADUsers;;
  writeInfo "Loading the list of users in group";;
  listGroupUsers;;
  writeInfo "Synchronizing group membership";;
  synchronizeGroup.

Definition main (m : Machine) : M unit :=
  match loadConfig m with
  | Panic p => panic p
  | Ok c =>
    modify (set_config c);;
    openLog m;;
    phases
  end.

End Program.

Arguments State : clear implicits.
Arguments M : clear implicits.

(** ** What a run is observed to do *)

Section Observations.

Context {Server Conn : Type} `{!LdapClient Server Conn} `{!GoLib}.

Definition outcome {A} (m : M Server Conn A) (s : State Server Conn) : Result A :=
  (m s).1.

Definition exec {A} (m : M Server Conn A) (s : State Server Conn)
    : State Server Conn :=
  (m s).2.

(** The events [m] adds to the trace when it is run from [s]. *)
Definition events {A} (m : M Server Conn A) (s : State Server Conn)
    : list (Event Conn) :=
  drop (length (trace s)) (trace (exec m s)).

(** The names [addUserToGroup] was called with, in order. *)
Definition provisioned (evs : list (Event Conn)) : list string :=
  omap (fun e => match e with
                 | EvEnter (FaddUserToGroup n) => Some n
                 | _ => None
                 end) evs.

(** The functions entered, and the searches made with their answers. *)
Definition entered (evs : list (Event Conn)) : list Function :=
  omap (fun e => match e with
                 | EvEnter f => Some f
                 | _ => None
                 end) evs.

Definition searches (evs : list (Event Conn))
    : list (SearchRequest * (string + SearchResult)) :=
  omap (fun e => match e with
                 | EvSearch _ req r => Some (req, r)
                 | _ => None
                 end) evs.

(** The addresses dialled. *)
Definition dialed (evs : list (Event Conn)) : list string :=
  omap (fun e => match e with
                 | EvDial url _ => Some url
                 | _ => None
                 end) evs.

(** The sessions a successful [ldap.DialURL] opened, and the sessions
    closed, in order. *)
Definition opened (evs : list (Event Conn)) : list Conn :=
  omap (fun e => match e with
                 | EvDial _ (inr l) => Some l
                 | _ => None
                 end) evs.

Definition closed (evs : list (Event Conn)) : list Conn :=
  omap (fun e => match e with
                 | EvClose l => Some l
                 | _ => None
                 end) evs.

(** The value [writeError] panics with in state [s]. *)
Definition fatal (s : State Server Conn) (msg : string) : PanicValue :=
  match errorLogger s with
  | Some _ => PanicString msg
  | None => PanicError msg
  end.

(** The values the loop of [listADUsers] reaches: the first value of
    the first attribute of each entry, up to the first entry that has
    none, and whether every entry had one. *)
Fixpoint firstValues (es : list Entry) : list string * bool :=
  match es with
  | [] => ([], true)
  | e :: es' =>
    match Attributes e !! 0 with
    | None => ([], false)
    | Some a =>
      match Values a !! 0 with
      | None => ([], false)
      | Some v => (v :: (firstValues es').1, (firstValues es').2)
      end
    end
  end.

(** The accounts of [A] that are not in [G], in the order of [A]. *)
Definition missing (A G : list string) : list string :=
  filter (fun x => x ∉ G) A.

End Observations.

(** ** A small directory and library to run the program on

    [Toy] is a directory with the user entries of the organisational
    unit, the entries the group search returns, the names whose addition
    the server refuses, and whether the server can be reached.  Adding a
    member appends it to the member attribute of the first group entry. *)

Module Toy.

Record Directory := {
  users : list Entry;
  groups : list Entry;
  refused : list string;
  reachable : bool
}.

Definition addMember (name : string) (es : list Entry) : list Entry :=
  match es with
  | [] => []
  | e :: es' =>
    {| DN := DN e;
       Attributes :=
         match Attributes e with
         | [] => [{| Name := "member"; Values := [name] |}]
         | a :: as' => {| Name := Name a; Values := Values a ++ [name] |} :: as'
         end |} :: es'
  end.

Definition dial (url : string) (d : Directory) : (string + nat) * Directory :=
  if reachable d then (inr 0, d) else (inl "connection refused", d).

Definition bind (l : nat) (username password : string) (d : Directory)
    : option string * Directory :=
  (None, d).

Definition search (l : nat) (req : SearchRequest) (d : Directory)
    : (string + SearchResult) * Directory :=
  if String.eqb (req_Filter req) "(&(objectClass=user))"
  then (inr {| Entries := users d |}, d)
  else (inr {| Entries := groups d |}, d).

Definition modify (l : nat) (req : ModifyRequest) (d : Directory)
    : option string * Directory :=
  match mod_Add req with
  | [(_, [name])] =>
    if bool_decide (name ∈ refused d)
    then (Some "insufficient access rights", d)
    else (None, {| users := users d; groups := addMember name (groups d);
                   refused := refused d; reachable := reachable d |})
  | _ => (Some "protocol error", d)
  end.

#[export] Instance client : LdapClient Directory nat := {
  ldap_DialURL := dial;
  ldap_Bind := bind;
  ldap_Search := search;
  ldap_Modify := modify;
  ldap_Close := fun _ d => d
}.

(** Upper-casing of the letters a to z, which is what [strings.ToUpper]
    does on a string of ASCII characters. *)
Definition upper (c : Ascii.ascii) : Ascii.ascii :=
  let n := Ascii.nat_of_ascii c in
  if ((97 <=? n) && (n <=? 122))%nat then Ascii.ascii_of_nat (n - 32) else c.

Fixpoint toUpper (s : string) : string :=
  match s with
  | EmptyString => EmptyString
  | String c s' => String (upper c) (toUpper s')
  end.

#[export] Instance lib : GoLib := {
  ToUpper := toUpper;
  Join := fun dir file => dir +:+ "/" +:+ file;
  decodeString := fun v =>
    match v with
    | VString s => inr s
    | _ => inl "expected type 'string'"
    end;
  decodeBool := fun v =>
    match v with
    | VBool b => inr b
    | _ => inl "expected type 'bool'"
    end
}.

#[export] Instance laws : DecoderLaws :=
  {| decodeString_VString := fun s => eq_refl;
     decodeBool_VBool := fun b => eq_refl |}.

Definition user (dn : string) : Entry :=
  {| DN := dn;
     Attributes := [{| Name := "distinguishedName"; Values := [dn] |}] |}.

Definition group (members : list string) : Entry :=
  {| DN := "cn=staff";
     Attributes := [{| Name := "member"; Values := members |}] |}.

Definition directory (us : list string) (gs : list Entry) (no : list string)
    : Directory :=
  {| users := user <$> us; groups := gs; refused := no; reachable := true |}.

(** The state in which [synchronizeGroup] finds the program when the
    two lists are [A] and [G]. *)
Definition ready (A G : list string) (no : list string)
    : State Directory nat :=
  set_groupUsers G (set_adUsers A (initial (directory A [group G] no))).

(** The same directory behind a server that cannot be reached. *)
Definition unreachable (d : Directory) : Directory :=
  {| users := users d; groups := groups d; refused := refused d;
     reachable := false |}.

(** A machine with the configuration file [file], on 7 March 2024, on
    which a log file opens when [writable] holds. *)
Definition machine (file : gmap string Value) (writable : bool) : Machine :=
  {| ReadInConfig := inr file;
     Today := (2024, 3, 7);
     OpenFile := fun _ => if writable then None else Some "permission denied" |}.

End Toy.

(** ** A server with fixed answers

    [Script] answers every dial, bind, search and modification the same
    way, whatever is asked. *)

Module Script.

Record Answers := {
  dialAnswer : option string;
  bindAnswer : option string;
  searchAnswer : string + SearchResult;
  modifyAnswer : option string
}.

#[export] Instance client : LdapClient Answers nat := {
  ldap_DialURL := fun _ a =>
    (match dialAnswer a with Some err => inl err | None => inr 7 end, a);
  ldap_Bind := fun _ _ _ a => (bindAnswer a, a);
  ldap_Search := fun _ _ a => (searchAnswer a, a);
  ldap_Modify := fun _ _ a => (modifyAnswer a, a);
  ldap_Close := fun _ a => a
}.

(** A server on which everything succeeds and the search returns
    [es]. *)
Definition healthy (es : list Entry) : Answers :=
  {| dialAnswer := None; bindAnswer := None;
     searchAnswer := inr {| Entries := es |}; modifyAnswer := None |}.

End Script.

(** ** More of what a run is observed to do *)

Section Details.

Context {Server Conn : Type}.

(** The lines written to the log, with the logger that wrote them. *)
Definition logged (evs : list (Event Conn)) : list (Logger * string) :=
  omap (fun e => match e with
                 | EvLog lg msg => Some (lg, msg)
                 | _ => None
                 end) evs.

(** The line a logger writes, when there is one. *)
Definition logLine (lg : option Logger) (msg : string)
    : list (Logger * string) :=
  match lg with
  | Some l => [(l, msg)]
  | None => []
  end.

(** The modifications requested, with their answers; the binds, with
    the name, the password and the answer. *)
Definition modifies (evs : list (Event Conn))
    : list (ModifyRequest * option string) :=
  omap (fun e => match e with
                 | EvModify _ req r => Some (req, r)
                 | _ => None
                 end) evs.

Definition binds (evs : list (Event Conn))
    : list (string * string * option string) :=
  omap (fun e => match e with
                 | EvBind _ username password r => Some (username, password, r)
                 | _ => None
                 end) evs.

(** The errors of the dials that failed. *)
Definition dialErrors (evs : list (Event Conn)) : list string :=
  omap (fun e => match e with
                 | EvDial _ (inl err) => Some err
                 | _ => None
                 end) evs.

(** With [n] sessions open before [evs]: a session is opened only when
    none is open, a session is closed only when one is open, a bind, a
    search or a modification happens only while one is open, and none
    is open after [evs]. *)
Fixpoint oneSession (n : nat) (evs : list (Event Conn)) : bool :=
  match evs with
  | [] => bool_decide (n = 0)
  | EvDial _ (inr _) :: evs' => bool_decide (n = 0) && oneSession 1 evs'
  | EvClose _ :: evs' => bool_decide (n = 1) && oneSession 0 evs'
  | EvBind _ _ _ _ :: evs' | EvSearch _ _ _ :: evs' | EvModify _ _ _ :: evs' =>
    bool_decide (n = 1) && oneSession n evs'
  | _ :: evs' => oneSession n evs'
  end.

(** [x.Attributes[0].Values[0]], when the entry has it. *)
Definition firstValue (x : Entry) : option string :=
  match Attributes x !! 0 with
  | Some a => Values a !! 0
  | None => None
  end.

(** The configuration, the loggers and the two lists are the same in
    [s'] as in [s]. *)
Definition sameGlobals (s s' : State Server Conn) : Prop :=
  config s' = config s ∧ errorLogger s' = errorLogger s
  ∧ infoLogger s' = infoLogger s
  ∧ adUsers s' = adUsers s ∧ groupUsers s' = groupUsers s.

End Details.

(** ** The calls of a trace, made again *)

Section Replay.

Context {Server Conn : Type} `{!LdapClient Server Conn}.

(** The state of the server after the calls that [evs] records are
    made on it, in order: every dial, bind, search and modification, and
    [ldap_Close] for every close. *)
Fixpoint replay (evs : list (Event Conn)) (srv : Server) : Server :=
  match evs with
  | [] => srv
  | EvDial url _ :: evs' => replay evs' (ldap_DialURL url srv).2
  | EvBind l username password _ :: evs' =>
    replay evs' (ldap_Bind l username password srv).2
  | EvSearch l req _ :: evs' => replay evs' (ldap_Search l req srv).2
  | EvModify l req _ :: evs' => replay evs' (ldap_Modify l req srv).2
  | EvClose l :: evs' => replay evs' (ldap_Close l srv)
  | _ :: evs' => replay evs' srv
  end.

End Replay.

(** ** A server that counts its open sessions

    The state of [Pool] is the number of sessions open: a dial opens
    one more, named by the number open before it, and closing a session
    takes one away. *)

Module Pool.

#[export] Instance client : LdapClient nat nat := {
  ldap_DialURL := fun _ n => (inr n, S n);
  ldap_Bind := fun _ _ _ n => (None, n);
  ldap_Search := fun _ _ n =>
    (inr {| Entries := [Toy.user "cn=alice"] |}, n);
  ldap_Modify := fun _ _ n => (None, n);
  ldap_Close := fun _ n => Nat.pred n
}.

End Pool.

(** * Properties *)

Section Basics.

Context {Server Conn : Type} `{!LdapClient Server Conn} `{!GoLib}.

Implicit Types (s : State Server Conn) (evs : list (Event Conn)).
Implicit Types (A G : list string) (x name : string).

(** ** The scan of the group list *)

Lemma found_elem_of x G : found x G = true ↔ x ∈ G.
Proof.
  induction G as [|y G IH]; simpl.
  - rewrite elem_of_nil. split; [discriminate | tauto].
  - rewrite elem_of_cons. destruct (String.eqb_spec x y) as [->|Hne].
    + tauto.
    + rewrite IH. tauto.
Qed.

Lemma found_false x G : found x G = false ↔ x ∉ G.
Proof. rewrite <- found_elem_of. by destruct (found x G). Qed.

(** ** The monad *)

Lemma bind_Ok {B C} (m : M Server Conn B) (k : B → M Server Conn C) s b s1 :
  m s = (Ok b, s1) → (m ≫= k) s = k b s1.
Proof. intros E. unfold mbind, M_bind, bind. by rewrite E. Qed.

Lemma bind_Panic {B C} (m : M Server Conn B) (k : B → M Server Conn C) s p s1 :
  m s = (Panic p, s1) → (m ≫= k) s = (Panic p, s1).
Proof. intros E. unfold mbind, M_bind, bind. by rewrite E. Qed.


(** ** Traces *)

Lemma events_of_trace {B} (m : M Server Conn B) s evs :
  trace (exec m s) = trace s ++ evs → events m s = evs.
Proof. intros E. unfold events. rewrite E. apply drop_app_length. Qed.

Lemma provisioned_app evs1 evs2 :
  provisioned (evs1 ++ evs2) = provisioned evs1 ++ provisioned evs2.
Proof. apply omap_app. Qed.

Lemma entered_app evs1 evs2 :
  entered (evs1 ++ evs2) = entered evs1 ++ entered evs2.
Proof. apply omap_app. Qed.

Lemma searches_app evs1 evs2 :
  searches (evs1 ++ evs2) = searches evs1 ++ searches evs2.
Proof. apply omap_app. Qed.

Lemma dialed_app evs1 evs2 :
  dialed (evs1 ++ evs2) = dialed evs1 ++ dialed evs2.
Proof. apply omap_app. Qed.

Lemma provisioned_entered evs :
  provisioned evs
  = omap (fun f => match f with FaddUserToGroup n => Some n | _ => None end)
         (entered evs).
Proof.
  induction evs as [|[[]| | | | | |] evs IH]; simpl; by rewrite ?IH.
Qed.

Lemma searches_elem_of evs l req r :
  EvSearch l req r ∈ evs → (req, r) ∈ searches evs.
Proof. intros Hin. apply list_elem_of_omap. by exists (EvSearch l req r). Qed.

(** ** The two collecting loops *)

Lemma forRange_appendUser es s :
  forRange es appendUser s
  = (if (firstValues es).2 then Ok tt else Panic indexError,
     set_adUsers (adUsers s ++ (ToUpper <$> (firstValues es).1)) s).
Proof.
  revert s. induction es as [|e es IH]; intros s; simpl.
  - destruct s; unfold set_adUsers, ret; simpl. by rewrite app_nil_r.
  - unfold mbind, M_bind, bind, appendUser, index, modify, panic, ret.
    unfold mbind, M_bind, bind.
    destruct (Attributes e !! 0) as [a|]; simpl;
      [destruct (Values a !! 0) as [v|]; simpl |].
    + rewrite IH. simpl. unfold set_adUsers; simpl. by rewrite <- app_assoc.
    + destruct s; unfold set_adUsers; simpl. by rewrite app_nil_r.
    + destruct s; unfold set_adUsers; simpl. by rewrite app_nil_r.
Qed.

Lemma forRange_appendMember (vs : list string) s :
  forRange vs appendMember s
  = (Ok tt, set_groupUsers (groupUsers s ++ (ToUpper <$> vs)) s).
Proof.
  revert s. induction vs as [|v vs IH]; intros s; simpl.
  - destruct s; unfold set_groupUsers, ret; simpl. by rewrite app_nil_r.
  - unfold mbind, M_bind, bind, appendMember, modify.
    rewrite IH. unfold set_groupUsers; simpl. by rewrite <- app_assoc.
Qed.

End Basics.

(** Unfolds the monad and splits on every answer of the libraries. *)
Ltac run :=
  unfold outcome, events, exec;
  unfold index, DialURL, Bind, Search, Modify, writeInfo, writeError,
    Close, fatal;
  unfold mbind, M_bind, bind, gets, modify, panic, ret, defer;
  repeat (simpl in *;
          rewrite ?forRange_appendUser, ?forRange_appendMember in *;
          case_match; simplify_eq);
  simpl in *; rewrite <- ?app_assoc; simpl; rewrite ?drop_app_length.

(** Closes the cases [run] leaves. *)
Ltac settle :=
  repeat split; intros; simpl in *;
  repeat match goal with
         | H : _ ∈ [] |- _ => by apply elem_of_nil in H
         | H : _ ∈ [_] |- _ => apply list_elem_of_singleton in H; simplify_eq
         end;
  simpl in *; rewrite ?last_cons; simpl;
  repeat match goal with
         | H : ?b = _ |- context [if ?b then _ else _] => rewrite H
         | H : _ !! 0 = _ |- _ => rewrite H; simpl
         | H : bool_decide (0 < length ?l) = false |- _ =>
           destruct l; simpl in *; [clear H | done]
         end;
  rewrite ?app_nil_r;
  try done; try lia;
  try (by eexists _, _; apply list_elem_of_singleton).

(** Closes the cases [run] leaves when the state of the server matters:
    the answers of the library are put back for the calls made again. *)
Ltac settle_server :=
  settle;
  repeat match goal with
         | H : ldap_DialURL _ _ = _ |- _ => rewrite H; simpl
         | H : ldap_Bind _ _ _ _ = _ |- _ => rewrite H; simpl
         | H : ldap_Search _ _ _ = _ |- _ => rewrite H; simpl
         | H : ldap_Modify _ _ _ = _ |- _ => rewrite H; simpl
         end;
  try done; try (by eexists).

Section Operations.

Context {Server Conn : Type} `{!LdapClient Server Conn} `{!GoLib}.

Implicit Types (s : State Server Conn) (evs : list (Event Conn)).
Implicit Types (A G : list string) (x name : string).

(** ** The provisioner *)

Lemma addUserToGroup_run name s :
  let s' := exec (addUserToGroup name) s in
  let evs := events (addUserToGroup name) s in
  trace s' = trace s ++ evs
  ∧ config s' = config s ∧ errorLogger s' = errorLogger s
  ∧ infoLogger s' = infoLogger s
  ∧ adUsers s' = adUsers s ∧ groupUsers s' = groupUsers s
  ∧ entered evs = [FaddUserToGroup name] ∧ searches evs = []
  ∧ dialed evs = [ldapURL (Host (ActiveDirectory (config s)))].
Proof. unfold addUserToGroup. run; settle. Qed.

Lemma addUserToGroup_sessions name s :
  let evs := events (addUserToGroup name) s in
  closed evs = opened evs ∧ (length (opened evs) ≤ 1)%nat
  ∧ ∀ l, l ∈ opened evs → last evs = Some (EvClose l).
Proof. unfold addUserToGroup. run; settle. Qed.

(** ** The account lister *)

Lemma listADUsers_run s :
  let s' := exec listADUsers s in
  let evs := events listADUsers s in
  trace s' = trace s ++ evs
  ∧ config s' = config s ∧ errorLogger s' = errorLogger s
  ∧ infoLogger s' = infoLogger s ∧ groupUsers s' = groupUsers s
  ∧ entered evs = [FlistADUsers]
  ∧ dialed evs = [ldapURL (Host (ActiveDirectory (config s)))]
  ∧ (∀ req r, (req, r) ∈ searches evs → req = userSearch (config s))
  ∧ (∀ req res, (req, inr res) ∈ searches evs →
       adUsers s' = adUsers s ++ (ToUpper <$> (firstValues (Entries res)).1)
       ∧ outcome listADUsers s
         = if bool_decide (0 < length (Entries res))
           then if (firstValues (Entries res)).2 then Ok tt else Panic indexError
           else Panic (fatal s "no results returned from ldap search"))
  ∧ (outcome listADUsers s = Ok tt → ∃ req res, (req, inr res) ∈ searches evs).
Proof. unfold listADUsers. run; settle. Qed.

Lemma listADUsers_sessions s :
  let evs := events listADUsers s in
  closed evs = opened evs ∧ (length (opened evs) ≤ 1)%nat
  ∧ ∀ l, l ∈ opened evs → last evs = Some (EvClose l).
Proof. unfold listADUsers. run; settle. Qed.

(** ** The group member lister *)

Lemma listGroupUsers_run s :
  let s' := exec listGroupUsers s in
  let evs := events listGroupUsers s in
  trace s' = trace s ++ evs
  ∧ config s' = config s ∧ errorLogger s' = errorLogger s
  ∧ infoLogger s' = infoLogger s ∧ adUsers s' = adUsers s
  ∧ entered evs = [FlistGroupUsers]
  ∧ dialed evs = [ldapURL (Host (ActiveDirectory (config s)))]
  ∧ (∀ req r, (req, r) ∈ searches evs → req = groupSearch (config s))
  ∧ (∀ req res, (req, inr res) ∈ searches evs →
       match Entries res !! 0 with
       | None => outcome listGroupUsers s = Panic indexError
                 ∧ groupUsers s' = groupUsers s
       | Some e =>
         match Attributes e !! 0 with
         | None => outcome listGroupUsers s = Panic indexError
                   ∧ groupUsers s' = groupUsers s
         | Some a => outcome listGroupUsers s = Ok tt
                     ∧ groupUsers s' = groupUsers s ++ (ToUpper <$> Values a)
         end
       end)
  ∧ (outcome listGroupUsers s = Ok tt → ∃ req res, (req, inr res) ∈ searches evs).
Proof. unfold listGroupUsers. run; settle. Qed.

Lemma listGroupUsers_sessions s :
  let evs := events listGroupUsers s in
  closed evs = opened evs ∧ (length (opened evs) ≤ 1)%nat
  ∧ ∀ l, l ∈ opened evs → last evs = Some (EvClose l).
Proof. unfold listGroupUsers. run; settle. Qed.

(** ** What closing does to the server *)

Lemma listADUsers_closes s :
  let evs := events listADUsers s in
  (∀ l, l ∈ opened evs → ∃ srv, server (exec listADUsers s) = ldap_Close l srv)
  ∧ server (exec listADUsers s) = replay evs (server s).
Proof. unfold listADUsers. run; settle_server. Qed.

Lemma listGroupUsers_closes s :
  let evs := events listGroupUsers s in
  (∀ l, l ∈ opened evs →
        ∃ srv, server (exec listGroupUsers s) = ldap_Close l srv)
  ∧ server (exec listGroupUsers s) = replay evs (server s).
Proof. unfold listGroupUsers. run; settle_server. Qed.

Lemma addUserToGroup_closes name s :
  let evs := events (addUserToGroup name) s in
  (∀ l, l ∈ opened evs →
        ∃ srv, server (exec (addUserToGroup name) s) = ldap_Close l srv)
  ∧ server (exec (addUserToGroup name) s) = replay evs (server s).
Proof. unfold addUserToGroup. run; settle_server. Qed.

End Operations.

(** The three progress messages of [main]. *)
Abbreviation infoAD := ("Loading the list of users from Active Directory")
  (only parsing).
Abbreviation infoGroup := ("Loading the list of users in group") (only parsing).
Abbreviation infoSync := ("Synchronizing group membership") (only parsing).

Section Composition.

Context {Server Conn : Type} `{!LdapClient Server Conn} `{!GoLib}.

Implicit Types (s : State Server Conn) (evs : list (Event Conn)).
Implicit Types (A G : list string) (x name : string).

(** ** Sequencing *)

Lemma seq_Ok {B C} (m : M Server Conn B) (k : B → M Server Conn C) s b :
  outcome m s = Ok b →
  trace (exec m s) = trace s ++ events m s →
  trace (exec (k b) (exec m s)) = trace (exec m s) ++ events (k b) (exec m s) →
  outcome (m ≫= k) s = outcome (k b) (exec m s)
  ∧ exec (m ≫= k) s = exec (k b) (exec m s)
  ∧ events (m ≫= k) s = events m s ++ events (k b) (exec m s)
  ∧ trace (exec (m ≫= k) s) = trace s ++ events (m ≫= k) s.
Proof.
  intros Hm E1 E2.
  assert ((m ≫= k) s = k b (exec m s)) as E.
  { apply bind_Ok. unfold outcome, exec in *.
    destruct (m s) as [r s1]; simpl in *. by subst. }
  assert (trace (exec (m ≫= k) s)
          = trace s ++ events m s ++ events (k b) (exec m s)) as Et.
  { unfold exec at 1. rewrite E. fold (exec (k b) (exec m s)).
    rewrite E2, E1. by rewrite <- app_assoc. }
  rewrite (events_of_trace _ _ _ Et).
  unfold outcome, exec in *. by rewrite E in Et |- *.
Qed.

Lemma seq_Panic {B C} (m : M Server Conn B) (k : B → M Server Conn C) s p :
  outcome m s = Panic p →
  outcome (m ≫= k) s = Panic p
  ∧ exec (m ≫= k) s = exec m s
  ∧ events (m ≫= k) s = events m s.
Proof.
  unfold events, outcome, exec. intros Hm.
  assert ((m ≫= k) s = (Panic p, (m s).2)) as E.
  { apply bind_Panic. destruct (m s) as [r s1]; simpl in *. by subst. }
  by rewrite E.
Qed.

Lemma writeInfo_run msg s :
  let s' := exec (writeInfo msg) s in
  let evs := events (writeInfo msg) s in
  outcome (writeInfo msg) s = Ok tt
  ∧ trace s' = trace s ++ evs
  ∧ config s' = config s ∧ errorLogger s' = errorLogger s
  ∧ infoLogger s' = infoLogger s
  ∧ adUsers s' = adUsers s ∧ groupUsers s' = groupUsers s
  ∧ entered evs = [] ∧ searches evs = [] ∧ dialed evs = []
  ∧ opened evs = [] ∧ closed evs = [].
Proof.
  run; settle; rewrite drop_all; by rewrite ?app_nil_r.
Qed.

(** ** The synchronizer *)

Lemma syncStep_eq x s :
  syncStep x s
  = if found x (groupUsers s) then (Ok tt, s) else addUserToGroup x s.
Proof.
  unfold syncStep, mbind, M_bind, bind, gets, ret.
  by destruct (found x (groupUsers s)).
Qed.

Lemma missing_cons_found x A G :
  found x G = true → missing (x :: A) G = missing A G.
Proof.
  intros Hf%found_elem_of. unfold missing.
  rewrite filter_cons_False; [done | by intros []].
Qed.

Lemma missing_cons_new x A G :
  found x G = false → missing (x :: A) G = x :: missing A G.
Proof.
  intros Hf%found_false. unfold missing. by rewrite filter_cons_True.
Qed.

Lemma syncStep_run x s :
  let s' := exec (syncStep x) s in
  let evs := events (syncStep x) s in
  trace s' = trace s ++ evs
  ∧ config s' = config s ∧ errorLogger s' = errorLogger s
  ∧ infoLogger s' = infoLogger s
  ∧ adUsers s' = adUsers s ∧ groupUsers s' = groupUsers s
  ∧ searches evs = []
  ∧ Forall (fun u => u = ldapURL (Host (ActiveDirectory (config s)))) (dialed evs)
  ∧ entered evs = (if found x (groupUsers s) then [] else [FaddUserToGroup x])
  ∧ (found x (groupUsers s) = true → outcome (syncStep x) s = Ok tt).
Proof.
  unfold events, exec, outcome. rewrite syncStep_eq.
  destruct (found x (groupUsers s)); simpl.
  - rewrite drop_all, app_nil_r. by repeat split.
  - destruct (addUserToGroup_run x s)
      as (? & ? & ? & ? & ? & ? & ? & ? & Ed).
    unfold events, exec in Ed. rewrite Ed.
    repeat split; try done. by apply Forall_singleton.
Qed.

Lemma forRange_syncStep A s :
  let s' := exec (forRange A syncStep) s in
  let evs := events (forRange A syncStep) s in
  trace s' = trace s ++ evs
  ∧ config s' = config s ∧ errorLogger s' = errorLogger s
  ∧ infoLogger s' = infoLogger s
  ∧ adUsers s' = adUsers s ∧ groupUsers s' = groupUsers s
  ∧ searches evs = []
  ∧ Forall (fun u => u = ldapURL (Host (ActiveDirectory (config s)))) (dialed evs)
  ∧ (∃ cs, entered evs = FaddUserToGroup <$> cs
           ∧ cs `prefix_of` missing A (groupUsers s)
           ∧ (outcome (forRange A syncStep) s = Ok tt
              → cs = missing A (groupUsers s))).
Proof.
  revert s. induction A as [|x A IH]; intros s.
  - unfold events, exec, outcome; simpl.
    rewrite drop_all, app_nil_r. repeat split; try done. by exists [].
  - change (forRange (x :: A) syncStep)
      with (syncStep x ≫= fun _ => forRange A syncStep).
    destruct (syncStep_run x s)
      as (Et & Ec & Ee & Ei & Ea & Eg & Es & Ed & En & Hf).
    destruct (outcome (syncStep x) s) as [[]|p] eqn:Ho.
    + destruct (IH (exec (syncStep x) s))
        as (Et' & Ec' & Ee' & Ei' & Ea' & Eg' & Es' & Ed' & cs & En' & Hp & Hok).
      destruct (seq_Ok (syncStep x) (fun _ => forRange A syncStep) s tt)
        as (-> & -> & -> & _); try done.
      cbv zeta. rewrite Et', Et, Ec', Ee', Ei', Ea', Eg'.
      rewrite searches_app, entered_app, dialed_app, Es, Es', En, En'.
      rewrite Eg in Hp, Hok. rewrite Ec in Ed'. rewrite <- app_assoc.
      repeat split; try done; [by apply Forall_app|].
      destruct (found x (groupUsers s)) eqn:Hx.
      * rewrite (missing_cons_found _ _ _ Hx). by exists cs.
      * rewrite (missing_cons_new _ _ _ Hx). exists (x :: cs).
        repeat split; [by apply prefix_cons | by intros ->%Hok].
    + destruct (seq_Panic (syncStep x) (fun _ => forRange A syncStep) s p)
        as (-> & -> & ->); try done.
      cbv zeta. repeat split; try done.
      destruct (found x (groupUsers s)) eqn:Hx.
      * by specialize (Hf eq_refl).
      * rewrite (missing_cons_new _ _ _ Hx), En. exists [x].
        repeat split; [|done]. apply prefix_cons, prefix_nil.
Qed.

Lemma synchronizeGroup_run s :
  let s' := exec synchronizeGroup s in
  let evs := events synchronizeGroup s in
  trace s' = trace s ++ evs
  ∧ config s' = config s ∧ errorLogger s' = errorLogger s
  ∧ infoLogger s' = infoLogger s
  ∧ adUsers s' = adUsers s ∧ groupUsers s' = groupUsers s
  ∧ searches evs = []
  ∧ Forall (fun u => u = ldapURL (Host (ActiveDirectory (config s)))) (dialed evs)
  ∧ (∃ cs, entered evs = FsynchronizeGroup :: (FaddUserToGroup <$> cs)
           ∧ cs `prefix_of` missing (adUsers s) (groupUsers s)
           ∧ (outcome synchronizeGroup s = Ok tt
              → cs = missing (adUsers s) (groupUsers s))).
Proof.
  set (s0 := emit (EvEnter FsynchronizeGroup) s).
  assert (synchronizeGroup s = forRange (adUsers s) syncStep s0) as E by done.
  destruct (forRange_syncStep (adUsers s) s0)
    as (Et & Ec & Ee & Ei & Ea & Eg & Es & Ed & cs & En & Hp & Hok).
  assert (trace (exec synchronizeGroup s)
          = trace s ++ [EvEnter FsynchronizeGroup]
                    ++ events (forRange (adUsers s) syncStep) s0) as Et'.
  { unfold exec at 1. rewrite E. fold (exec (forRange (adUsers s) syncStep) s0).
    rewrite Et. simpl. by rewrite <- app_assoc. }
  cbv zeta. rewrite (events_of_trace _ _ _ Et').
  rewrite searches_app, entered_app, dialed_app, Es, En.
  unfold exec, outcome in *. rewrite E.
  repeat split; try done.
  by exists cs.
Qed.


(** ** The three phases *)

Lemma seq_run {B C} (m : M Server Conn B) (k : B → M Server Conn C) s :
  trace (exec m s) = trace s ++ events m s →
  (∀ b, outcome m s = Ok b →
        trace (exec (k b) (exec m s))
        = trace (exec m s) ++ events (k b) (exec m s)) →
  trace (exec (m ≫= k) s) = trace s ++ events (m ≫= k) s
  ∧ match outcome m s with
    | Ok b => outcome (m ≫= k) s = outcome (k b) (exec m s)
              ∧ exec (m ≫= k) s = exec (k b) (exec m s)
              ∧ events (m ≫= k) s = events m s ++ events (k b) (exec m s)
    | Panic p => outcome (m ≫= k) s = Panic p
                 ∧ exec (m ≫= k) s = exec m s
                 ∧ events (m ≫= k) s = events m s
    end.
Proof.
  intros Em Ek. destruct (outcome m s) as [b|p] eqn:Ho.
  - destruct (seq_Ok m k s b Ho Em (Ek b eq_refl)) as (? & ? & ? & ?).
    by repeat split.
  - destruct (seq_Panic m k s p Ho) as (? & E2 & E3).
    repeat split; try done. by rewrite E2, E3.
Qed.

Lemma search_distinct (c c' : Configuration) : userSearch c ≠ groupSearch c'.
Proof. intros E. apply (f_equal req_Attributes) in E. discriminate. Qed.

(** The run of [phases], phase by phase. *)
Lemma phases_run s :
  let s1 := exec (writeInfo infoAD) s in
  let s2 := exec (writeInfo infoGroup) (exec listADUsers s1) in
  let s3 := exec (writeInfo infoSync) (exec listGroupUsers s2) in
  let i1 := events (writeInfo infoAD) s in
  let i2 := events (writeInfo infoGroup) (exec listADUsers s1) in
  let i3 := events (writeInfo infoSync) (exec listGroupUsers s2) in
  trace (exec phases s) = trace s ++ events phases s
  ∧ match outcome listADUsers s1 with
    | Panic p =>
      outcome phases s = Panic p ∧ exec phases s = exec listADUsers s1
      ∧ events phases s = i1 ++ events listADUsers s1
    | Ok _ =>
      match outcome listGroupUsers s2 with
      | Panic p =>
        outcome phases s = Panic p ∧ exec phases s = exec listGroupUsers s2
        ∧ events phases s
          = i1 ++ events listADUsers s1 ++ i2 ++ events listGroupUsers s2
      | Ok _ =>
        outcome phases s = outcome synchronizeGroup s3
        ∧ exec phases s = exec synchronizeGroup s3
        ∧ events phases s
          = i1 ++ events listADUsers s1 ++ i2 ++ events listGroupUsers s2
               ++ i3 ++ events synchronizeGroup s3
      end
    end.
Proof.
  intros s1 s2 s3 i1 i2 i3.
  pose proof (synchronizeGroup_run s3) as (Et6 & _).
  pose proof (writeInfo_run infoSync (exec listGroupUsers s2)) as (Eo5 & Et5 & _).
  pose proof (listGroupUsers_run s2) as (Et4 & _).
  pose proof (writeInfo_run infoGroup (exec listADUsers s1)) as (Eo3 & Et3 & _).
  pose proof (listADUsers_run s1) as (Et2 & _).
  pose proof (writeInfo_run infoAD s) as (Eo1 & Et1 & _).
  fold s1 s2 s3 i1 i2 i3 in Et1, Et2, Et3, Et4, Et5, Et6, Eo5, Eo3, Eo1.
  destruct (seq_run (writeInfo infoSync) (fun _ => synchronizeGroup)
              (exec listGroupUsers s2) Et5) as (T5 & R5).
  { by intros []. }
  rewrite Eo5 in R5. destruct R5 as (O5 & X5 & V5).
  destruct (seq_run listGroupUsers
              (fun _ => writeInfo infoSync ≫= fun _ => synchronizeGroup)
              s2 Et4) as (T4 & R4).
  { by intros []. }
  destruct (seq_run (writeInfo infoGroup)
              (fun _ => listGroupUsers ≫= fun _ =>
                 writeInfo infoSync ≫= fun _ => synchronizeGroup)
              (exec listADUsers s1) Et3) as (T3 & R3).
  { by intros []. }
  rewrite Eo3 in R3. destruct R3 as (O3 & X3 & V3).
  destruct (seq_run listADUsers
              (fun _ => writeInfo infoGroup ≫= fun _ => listGroupUsers ≫= fun _ =>
                 writeInfo infoSync ≫= fun _ => synchronizeGroup)
              s1 Et2) as (T2 & R2).
  { by intros []. }
  destruct (seq_run (writeInfo infoAD)
              (fun _ => listADUsers ≫= fun _ =>
                 writeInfo infoGroup ≫= fun _ => listGroupUsers ≫= fun _ =>
                 writeInfo infoSync ≫= fun _ => synchronizeGroup)
              s Et1) as (T1 & R1).
  { by intros []. }
  rewrite Eo1 in R1. destruct R1 as (O1 & X1 & V1).
  change (writeInfo infoAD ≫= _) with (@phases Server Conn _ _) in *.
  fold s1 i1 in O1, X1, V1.
  split; [done|].
  rewrite O1, X1, V1.
  destruct (outcome listADUsers s1) as [[]|p].
  - destruct R2 as (-> & -> & ->). rewrite O3, X3, V3.
    fold s2 i2.
    destruct (outcome listGroupUsers s2) as [[]|p].
    + destruct R4 as (-> & -> & ->). rewrite O5, X5, V5. done.
    + by destruct R4 as (-> & -> & ->).
  - by destruct R2 as (-> & -> & ->).
Qed.

End Composition.

(** Brings the facts about every phase of a run of [phases] from [s]
    into the context and splits on how far the run gets. *)
Ltac phases_cases s :=
  let s1 := fresh "s1" in
  let s2 := fresh "s2" in
  let s3 := fresh "s3" in
  pose proof (phases_run s) as (PT & PR); cbv zeta in PR;
  pose proof (writeInfo_run infoAD s)
    as (_ & _ & I1c & I1e & I1i & I1a & I1g & I1n & I1s & I1d & _);
  set (s1 := exec (writeInfo infoAD) s) in *;
  pose proof (listADUsers_run s1)
    as (_ & Ac & Ae & Ai & Ag & An & Ad & Areq & Ares & Aok);
  cbv zeta in Ares, Aok;
  pose proof (writeInfo_run infoGroup (exec listADUsers s1))
    as (_ & _ & I2c & I2e & I2i & I2a & I2g & I2n & I2s & I2d & _);
  set (s2 := exec (writeInfo infoGroup)
                  (exec listADUsers s1)) in *;
  pose proof (listGroupUsers_run s2)
    as (_ & Gc & Ge & Gi & Ga & Gn & Gd & Greq & Gres & Gok);
  cbv zeta in Gres, Gok;
  pose proof (writeInfo_run infoSync (exec listGroupUsers s2))
    as (_ & _ & I3c & I3e & I3i & I3a & I3g & I3n & I3s & I3d & _);
  set (s3 := exec (writeInfo infoSync)
                  (exec listGroupUsers s2)) in *;
  pose proof (synchronizeGroup_run s3)
    as (_ & Sc & Se & Si & Sa & Sg & Ss & Sd & cs & Sn & Sp & Sok);
  clearbody s3; clearbody s2; clearbody s1;
  destruct (outcome listADUsers s1) as [[]|pA] eqn:OA;
    [destruct (outcome listGroupUsers s2) as [[]|pG] eqn:OG|];
    destruct PR as (PO & PX & PV);
    rewrite ?PV, ?PX, ?PO;
    rewrite ?entered_app, ?searches_app, ?dialed_app, ?provisioned_app;
    rewrite ?I1n, ?I1s, ?I1d, ?I2n, ?I2s, ?I2d, ?I3n, ?I3s, ?I3d, ?An, ?Gn, ?Ss;
    rewrite ?app_nil_l, ?app_nil_r.

Section Phases.

Context {Server Conn : Type} `{!LdapClient Server Conn} `{!GoLib}.

Implicit Types (s : State Server Conn) (evs : list (Event Conn)).
Implicit Types (A G : list string) (x name : string).

Lemma firstValues_nonempty (es : list Entry) :
  es ≠ [] → (firstValues es).2 = true → (firstValues es).1 ≠ [].
Proof.
  destruct es as [|e es]; [done|]. simpl. intros _.
  destruct (Attributes e !! 0) as [a|]; [|done].
  by destruct (Values a !! 0).
Qed.

Lemma omap_added (cs : list string) :
  omap (fun f => match f with FaddUserToGroup n => Some n | _ => None end)
       (FaddUserToGroup <$> cs) = cs.
Proof. induction cs as [|c cs IH]; csimpl; by rewrite ?IH. Qed.

Lemma missing_not_elem_of x A G : x ∈ missing A G → x ∈ A ∧ x ∉ G.
Proof. unfold missing. rewrite list_elem_of_filter. tauto. Qed.

Lemma prefix_elem_of {B} (l1 l2 : list B) (b : B) :
  l1 `prefix_of` l2 → b ∈ l1 → b ∈ l2.
Proof. intros [k ->] Hb. apply elem_of_app. by left. Qed.

Lemma phases_frame s :
  config (exec phases s) = config s
  ∧ errorLogger (exec phases s) = errorLogger s
  ∧ infoLogger (exec phases s) = infoLogger s.
Proof.
  phases_cases s; repeat split.
  all: by rewrite ?Sc, ?Se, ?Si, ?I3c, ?I3e, ?I3i, ?Gc, ?Ge, ?Gi,
         ?I2c, ?I2e, ?I2i, ?Ac, ?Ae, ?Ai.
Qed.

Lemma phases_entered s :
  ∃ fs, entered (events phases s) = FlistADUsers :: fs.
Proof. phases_cases s; rewrite ?Sn; simpl; by eexists. Qed.

Lemma phases_dialed s :
  Forall (fun u => u = ldapURL (Host (ActiveDirectory (config s))))
         (dialed (events phases s)).
Proof.
  phases_cases s; rewrite ?Ad, ?Gd.
  - apply Forall_cons. split; [by rewrite I1c|].
    apply Forall_cons. split; [by rewrite I2c, Ac, I1c|].
    eapply Forall_impl; [exact Sd|]. simpl. intros u ->.
    by rewrite I3c, Gc, I2c, Ac, I1c.
  - apply Forall_cons. split; [by rewrite I1c|].
    apply Forall_singleton. by rewrite I2c, Ac, I1c.
  - apply Forall_singleton. by rewrite I1c.
Qed.

Lemma phases_no_accounts s c res :
  (userSearch c, inr res) ∈ searches (events phases s) →
  Entries res = [] →
  outcome phases s = Panic (fatal s "no results returned from ldap search")
  ∧ entered (events phases s) = [FlistADUsers].
Proof.
  assert (∀ s', errorLogger s' = errorLogger s →
                fatal s' "no results returned from ldap search"
                = fatal s "no results returned from ldap search") as Hfatal.
  { intros s' E. unfold fatal. by rewrite E. }
  phases_cases s; intros Hin Hnil.
  - apply elem_of_app in Hin as [Hin|Hin].
    + destruct (Ares _ _ Hin) as [_ Ho]. by rewrite Hnil in Ho.
    + by destruct (search_distinct _ _ (Greq _ _ Hin)).
  - apply elem_of_app in Hin as [Hin|Hin].
    + destruct (Ares _ _ Hin) as [_ Ho]. by rewrite Hnil in Ho.
    + by destruct (search_distinct _ _ (Greq _ _ Hin)).
  - destruct (Ares _ _ Hin) as [_ Ho]. rewrite Hnil in Ho. simpl in Ho.
    split; [|done]. rewrite Ho. f_equal. by apply Hfatal.
Qed.

Lemma phases_accounts s c res :
  (userSearch c, inr res) ∈ searches (events phases s) →
  adUsers (exec phases s)
  = adUsers s ++ (ToUpper <$> (firstValues (Entries res)).1).
Proof.
  phases_cases s; intros Hin.
  - apply elem_of_app in Hin as [Hin|Hin].
    + destruct (Ares _ _ Hin) as [Ha _]. congruence.
    + by destruct (search_distinct _ _ (Greq _ _ Hin)).
  - apply elem_of_app in Hin as [Hin|Hin].
    + destruct (Ares _ _ Hin) as [Ha _]. congruence.
    + by destruct (search_distinct _ _ (Greq _ _ Hin)).
  - destruct (Ares _ _ Hin) as [Ha _]. congruence.
Qed.

Lemma phases_synchronize_nonempty s :
  FsynchronizeGroup ∈ entered (events phases s) →
  adUsers (exec phases s) ≠ [].
Proof.
  phases_cases s; rewrite ?Sn; intros Hin.
  - destruct (Aok eq_refl) as (req & res & Hres).
    destruct (Ares _ _ Hres) as [Ha Ho].
    assert (adUsers (exec synchronizeGroup s3)
            = adUsers s1 ++ (ToUpper <$> (firstValues (Entries res)).1)) as ->
      by congruence.
    case_bool_decide as Hlen; [|done].
    destruct ((firstValues (Entries res)).2) eqn:Hall; [|done].
    assert ((firstValues (Entries res)).1 ≠ []) as Hne.
    { apply firstValues_nonempty; [|done]. intros E. rewrite E in Hlen.
      simpl in Hlen. lia. }
    destruct ((firstValues (Entries res)).1); [done|].
    intros E. by apply app_eq_nil in E as [_ ?].
  - simpl in Hin. by rewrite !elem_of_cons, elem_of_nil in Hin; intuition.
  - simpl in Hin. by rewrite !elem_of_cons, elem_of_nil in Hin; intuition.
Qed.

Lemma phases_members s c res e a :
  (groupSearch c, inr res) ∈ searches (events phases s) →
  Entries res !! 0 = Some e →
  Attributes e !! 0 = Some a →
  groupUsers (exec phases s) = groupUsers s ++ (ToUpper <$> Values a)
  ∧ ∀ x, x ∈ provisioned (events phases s) → x ∉ groupUsers (exec phases s).
Proof.
  phases_cases s; intros Hin He Ha.
  - apply elem_of_app in Hin as [Hin|Hin].
    { destruct (search_distinct (config s1) c). symmetry. exact (Areq _ _ Hin). }
    specialize (Gres _ _ Hin). rewrite He, Ha in Gres. destruct Gres as [_ Eg].
    split; [congruence|].
    rewrite !provisioned_entered, I1n, An, I2n, Gn, I3n, Sn. simpl.
    rewrite omap_added.
    intros x Hx. rewrite Sg.
    apply (prefix_elem_of _ _ _ Sp) in Hx.
    by apply missing_not_elem_of in Hx as [_ ?].
  - apply elem_of_app in Hin as [Hin|Hin].
    { destruct (search_distinct (config s1) c). symmetry. exact (Areq _ _ Hin). }
    specialize (Gres _ _ Hin). rewrite He, Ha in Gres. by destruct Gres.
  - destruct (search_distinct (config s1) c). symmetry. exact (Areq _ _ Hin).
Qed.

End Phases.

Section Claims.

Context {Server Conn : Type} `{!LdapClient Server Conn} `{!GoLib}.

Implicit Types (s : State Server Conn) (evs : list (Event Conn)).
Implicit Types (A G : list string) (x name : string) (m : Machine).

(** ** [main] *)

Lemma main_eq m s :
  main m s
  = match loadConfig m with
    | Panic p => (Panic p, s)
    | Ok c =>
      if Enabled (Logging c) then
        match OpenFile m (Join (Location (Logging c)) (logfilename (Today m))) with
        | Some err =>
          (Panic (PanicError ("failed to open log file: " +:+ err)),
           set_config c s)
        | None =>
          phases (set_loggers (Some {| prefix := "ERROR: " |})
                              (Some {| prefix := "INFO: " |})
                              (set_config c s))
        end
      else phases (set_config c s)
    end.
Proof.
  unfold main. destruct (loadConfig m) as [c|p]; [|done].
  unfold openLog, mbind, M_bind, bind, modify, gets, panic, ret; simpl.
  destruct (Enabled (Logging c)); [|done].
  by destruct (OpenFile m _).
Qed.

(** Either [main] stops before any contact with the directory, or it
    runs [phases] with the loaded configuration. *)
Lemma main_cases m s :
  (∃ p, outcome (main m) s = Panic p ∧ events (main m) s = []
        ∧ adUsers (exec (main m) s) = adUsers s
        ∧ groupUsers (exec (main m) s) = groupUsers s)
  ∨ (∃ c s0, loadConfig m = Ok c ∧ config s0 = c
             ∧ adUsers s0 = adUsers s ∧ groupUsers s0 = groupUsers s
             ∧ outcome (main m) s = outcome phases s0
             ∧ exec (main m) s = exec phases s0
             ∧ events (main m) s = events phases s0).
Proof.
  unfold outcome, events, exec. rewrite main_eq.
  destruct (loadConfig m) as [c|p]; simpl.
  - destruct (Enabled (Logging c)); [destruct (OpenFile m _)|]; simpl.
    + left. eexists. by rewrite drop_all.
    + right.
      by exists c, (set_loggers (Some {| prefix := "ERROR: " |})
                                (Some {| prefix := "INFO: " |})
                                (set_config c s)).
    + right. by exists c, (set_config c s).
  - left. eexists. by rewrite drop_all.
Qed.


Lemma forRange_all_found A s :
  (∀ x, x ∈ A → x ∈ groupUsers s) → forRange A syncStep s = (Ok tt, s).
Proof.
  induction A as [|x A IH]; intros Hall; [done|].
  change (forRange (x :: A) syncStep)
    with (syncStep x ≫= fun _ => forRange A syncStep).
  assert (syncStep x s = (Ok tt, s)) as E.
  { rewrite syncStep_eq.
    assert (found x (groupUsers s) = true) as ->; [|done].
    apply found_elem_of, Hall, list_elem_of_here. }
  rewrite (bind_Ok _ _ _ _ _ E). apply IH.
  intros y Hy. by apply Hall, list_elem_of_further.
Qed.

Lemma synchronizeGroup_calls s :
  provisioned (events synchronizeGroup s)
    `prefix_of` missing (adUsers s) (groupUsers s)
  ∧ (outcome synchronizeGroup s = Ok tt →
     provisioned (events synchronizeGroup s)
     = missing (adUsers s) (groupUsers s)).
Proof.
  destruct (synchronizeGroup_run s)
    as (_ & _ & _ & _ & _ & _ & _ & _ & cs & En & Hp & Hok).
  rewrite provisioned_entered, En. simpl. by rewrite omap_added.
Qed.

(** * The claims *)

(** C1 (amended).  The provisioner is never invoked on an identifier
    that is in the Group Member Set, nor on one that is not in the
    Account Set; and when the run of the synchronizer is not aborted by
    a failing provisioning call, the identifiers it is invoked on are
    exactly those of the set difference: the elements of [adUsers] that
    are not in [groupUsers]. *)
Theorem provisioned_is_difference s :
  (∀ x, x ∈ provisioned (events synchronizeGroup s) →
        x ∈ adUsers s ∧ x ∉ groupUsers s)
  ∧ (outcome synchronizeGroup s = Ok tt →
     ∀ x, x ∈ provisioned (events synchronizeGroup s)
          ↔ x ∈ adUsers s ∧ x ∉ groupUsers s).
Proof.
  destruct (synchronizeGroup_calls s) as [Hp Hok]. split.
  - intros x Hx. apply missing_not_elem_of. by apply (prefix_elem_of _ _ _ Hp).
  - intros Ho x. rewrite (Hok Ho). unfold missing.
    rewrite list_elem_of_filter. tauto.
Qed.

(** C2 (amended).  The sequence of identifiers passed to the provisioner
    is a prefix of the subsequence of the Account Set made of the
    elements that are not in the Group Member Set, in the order of the
    Account Set and with its repetitions; when no provisioning call
    aborts the run it is that whole subsequence. *)
Theorem provisioned_in_order s :
  provisioned (events synchronizeGroup s)
    `prefix_of` filter (fun x => x ∉ groupUsers s) (adUsers s)
  ∧ (outcome synchronizeGroup s = Ok tt →
     provisioned (events synchronizeGroup s)
     = filter (fun x => x ∉ groupUsers s) (adUsers s)).
Proof. apply synchronizeGroup_calls. Qed.

(** C4.  The account lister stores the upper-cased first value of each
    entry of the account search, the group member lister stores the
    upper-cased values of the member attribute, and an identifier whose
    upper-casing equals that of a member value of the group is never
    passed to the provisioner. *)
Theorem case_differences_are_members m s :
  (∀ c l res,
     EvSearch l (userSearch c) (inr res) ∈ events (main m) s →
     adUsers (exec (main m) s)
     = adUsers s ++ (ToUpper <$> (firstValues (Entries res)).1))
  ∧ (∀ c l res e a,
       EvSearch l (groupSearch c) (inr res) ∈ events (main m) s →
       Entries res !! 0 = Some e →
       Attributes e !! 0 = Some a →
       groupUsers (exec (main m) s) = groupUsers s ++ (ToUpper <$> Values a)
       ∧ ∀ x g, g ∈ Values a → ToUpper x = ToUpper g →
                ToUpper x ∉ provisioned (events (main m) s)).
Proof.
  destruct (main_cases m s)
    as [(p & _ & Ev & _)|(c0 & s0 & _ & _ & Ea & Eg & _ & -> & ->)].
  { rewrite Ev. split; intros; by apply elem_of_nil in H0. }
  rewrite <- Ea, <- Eg. split.
  - intros c l res Hin%searches_elem_of. by eapply phases_accounts.
  - intros c l res e a Hin%searches_elem_of He Ha.
    destruct (phases_members s0 c res e a Hin He Ha) as [E Hno].
    split; [done|]. intros x g Hg Hx Hcall. apply (Hno _ Hcall).
    rewrite E, Hx. apply elem_of_app. right. by apply list_elem_of_fmap_2.
Qed.

(** C5.  When the account search is answered with zero entries, [main]
    panics with the empty-result error having entered [listADUsers]
    only: neither [listGroupUsers] nor [synchronizeGroup] nor
    [addUserToGroup] is entered.  And whenever [synchronizeGroup] is
    entered the account list is not empty. *)
Theorem empty_account_search_is_fatal m s :
  (∀ c l res,
     EvSearch l (userSearch c) (inr res) ∈ events (main m) s →
     Entries res = [] →
     outcome (main m) s
     = Panic (fatal (exec (main m) s) "no results returned from ldap search")
     ∧ entered (events (main m) s) = [FlistADUsers])
  ∧ (FsynchronizeGroup ∈ entered (events (main m) s) →
     adUsers (exec (main m) s) ≠ []).
Proof.
  destruct (main_cases m s)
    as [(p & _ & Ev & _)|(c0 & s0 & _ & _ & _ & _ & -> & -> & ->)].
  { rewrite Ev. split; intros; by apply elem_of_nil in H0. }
  split.
  - intros c l res Hin%searches_elem_of Hnil.
    destruct (phases_no_accounts s0 c res Hin Hnil) as [-> ->].
    split; [|done]. f_equal. unfold fatal.
    by destruct (phases_frame s0) as (_ & -> & _).
  - apply phases_synchronize_nonempty.
Qed.


(** C7.  After a run of the synchronizer in which every provisioning
    call succeeded, a run on the same Account Set and on the Group
    Member Set extended with the identifiers provisioned makes no
    provisioning call, and completes. *)
Theorem second_run_provisions_nothing s s' :
  outcome synchronizeGroup s = Ok tt →
  adUsers s' = adUsers s →
  groupUsers s' = groupUsers s ++ provisioned (events synchronizeGroup s) →
  provisioned (events synchronizeGroup s') = []
  ∧ outcome synchronizeGroup s' = Ok tt.
Proof.
  intros Ho EA EG.
  destruct (synchronizeGroup_calls s) as [_ Hok]. rewrite (Hok Ho) in EG.
  set (s0 := emit (EvEnter FsynchronizeGroup) s').
  assert (synchronizeGroup s' = (Ok tt, s0)) as E.
  { change (synchronizeGroup s') with (forRange (adUsers s') syncStep s0).
    apply forRange_all_found. intros x Hx. simpl. rewrite EG, EA in *.
    apply elem_of_app.
    destruct (decide (x ∈ groupUsers s)) as [|Hn]; [by left|right].
    unfold missing. by apply list_elem_of_filter. }
  unfold events, exec, outcome. rewrite E. simpl.
  by rewrite drop_app_length.
Qed.

(** C8.  When the group search returns the entries [e :: rest], the
    Group Member Set receives the upper-cased values of the first
    attribute of [e] and nothing else, whatever [rest] is. *)
Theorem only_first_group_entry_is_used s l req e rest a attrs :
  EvSearch l req (inr {| Entries := e :: rest |}) ∈ events listGroupUsers s →
  Attributes e = a :: attrs →
  outcome listGroupUsers s = Ok tt
  ∧ groupUsers (exec listGroupUsers s) = groupUsers s ++ (ToUpper <$> Values a).
Proof.
  intros Hin%searches_elem_of Ha.
  destruct (listGroupUsers_run s) as (_ & _ & _ & _ & _ & _ & _ & _ & Hres & _).
  specialize (Hres _ _ Hin). simpl in Hres. by rewrite Ha in Hres.
Qed.

(** C9.  In each of [listADUsers], [listGroupUsers] and
    [addUserToGroup], at most one session is opened, the sessions closed
    are the sessions opened, and closing it is the last thing the
    operation does, whether it returns or panics: the server is left in
    the state [ldap_Close] gives for that session.  The state of the
    server after the operation is the one that results from making, in
    order, the calls of the trace, the close among them. *)
Theorem sessions_are_closed s name :
  let closes (op : M Server Conn unit) :=
    let evs := events op s in
    closed evs = opened evs ∧ (length (opened evs) ≤ 1)%nat
    ∧ (∀ l, l ∈ opened evs →
            last evs = Some (EvClose l)
            ∧ ∃ srv, server (exec op s) = ldap_Close l srv)
    ∧ server (exec op s) = replay evs (server s) in
  closes listADUsers
  ∧ closes listGroupUsers
  ∧ closes (addUserToGroup name).
Proof.
  intros closes. split; [|split].
  - destruct (listADUsers_sessions s) as (H1 & H2 & H3).
    destruct (listADUsers_closes s) as (H4 & H5).
    split; [done|]. split; [done|]. split; [|done].
    intros l Hl. split; [by apply H3 | by apply H4].
  - destruct (listGroupUsers_sessions s) as (H1 & H2 & H3).
    destruct (listGroupUsers_closes s) as (H4 & H5).
    split; [done|]. split; [done|]. split; [|done].
    intros l Hl. split; [by apply H3 | by apply H4].
  - destruct (addUserToGroup_sessions name s) as (H1 & H2 & H3).
    destruct (addUserToGroup_closes name s) as (H4 & H5).
    split; [done|]. split; [done|]. split; [|done].
    intros l Hl. split; [by apply H3 | by apply H4].
Qed.

End Claims.

Section Startup.

Context {Server Conn : Type} `{!LdapClient Server Conn} `{!GoLib}.
Context `{!DecoderLaws}.

Implicit Types (s : State Server Conn) (m : Machine).
Implicit Types (file : gmap string Value).

(** ** Start-up *)

Lemma default_host file :
  file !! "activedirectory.host" = None →
  field decodeString "" (viperGet file "activedirectory.host")
  = inr "127.0.0.1".
Proof.
  intros E. unfold viperGet. rewrite E. vm_compute (defaults !! _).
  apply decodeString_VString.
Qed.

Lemma default_location file :
  file !! "logging.location" = None →
  field decodeString "" (viperGet file "logging.location") = inr ".".
Proof.
  intros E. unfold viperGet. rewrite E. vm_compute (defaults !! _).
  apply decodeString_VString.
Qed.

Lemma default_enabled file :
  file !! "logging.enabled" = None →
  field decodeBool false (viperGet file "logging.enabled") = inr false.
Proof.
  intros E. unfold viperGet. rewrite E. vm_compute (defaults !! _).
  apply decodeBool_VBool.
Qed.

Lemma string_field_decodes file key :
  wellFormed file → key ∈ stringKeys →
  ∃ str : string, field decodeString "" (viperGet file key) = inr str.
Proof.
  intros [Hs _] Hk. unfold viperGet.
  destruct (file !! key) as [v|] eqn:E; [by apply (Hs key)|].
  unfold stringKeys in Hk. rewrite !elem_of_cons, elem_of_nil in Hk.
  destruct Hk as [->|[->|[->|[->|[->|[->|[->|[->|[]]]]]]]]];
    vm_compute (defaults !! _); simpl;
    rewrite ?decodeString_VString; by eexists.
Qed.

Lemma bool_field_decodes file :
  wellFormed file →
  ∃ b, field decodeBool false (viperGet file "logging.enabled") = inr b.
Proof.
  intros [_ Hb]. unfold viperGet.
  destruct (file !! "logging.enabled") as [v|] eqn:E; [by apply Hb|].
  vm_compute (defaults !! _). simpl. rewrite decodeBool_VBool. by eexists.
Qed.

Lemma field_present {T} (dec : Value → string + T) (zero : T) file key v :
  file !! key = Some v → field dec zero (viperGet file key) = dec v.
Proof. intros E. unfold viperGet. by rewrite E. Qed.

Lemma Unmarshal_wellFormed file :
  wellFormed file ↔ ∃ c, Unmarshal file = inr c.
Proof.
  split.
  - intros Hwf. unfold Unmarshal.
    repeat match goal with
    | |- context [field decodeString "" (viperGet file ?k)] =>
      let s := fresh "s" in
      destruct (string_field_decodes file k Hwf) as [s ->];
        [unfold stringKeys; rewrite !elem_of_cons; tauto|]; simpl
    end.
    destruct (bool_field_decodes file Hwf) as [b ->]. simpl. by eexists.
  - intros [c E]. unfold Unmarshal in E.
    destruct (field decodeString "" (viperGet file "activedirectory.host"))
      as [|f1] eqn:E1; [done|]; simpl in E.
    destruct (field decodeString "" (viperGet file "activedirectory.domain"))
      as [|f2] eqn:E2; [done|]; simpl in E.
    destruct (field decodeString "" (viperGet file "activedirectory.username"))
      as [|f3] eqn:E3; [done|]; simpl in E.
    destruct (field decodeString "" (viperGet file "activedirectory.password"))
      as [|f4] eqn:E4; [done|]; simpl in E.
    destruct (field decodeString "" (viperGet file "activedirectory.userdn"))
      as [|f5] eqn:E5; [done|]; simpl in E.
    destruct (field decodeString "" (viperGet file "activedirectory.groupdn"))
      as [|f6] eqn:E6; [done|]; simpl in E.
    destruct (field decodeString "" (viperGet file "activedirectory.group"))
      as [|f7] eqn:E7; [done|]; simpl in E.
    destruct (field decodeBool false (viperGet file "logging.enabled"))
      as [|f8] eqn:E8; [done|]; simpl in E.
    destruct (field decodeString "" (viperGet file "logging.location"))
      as [|f9] eqn:E9; [done|]; simpl in E.
    split.
    + intros key v Hk Hv.
      unfold stringKeys in Hk. rewrite !elem_of_cons, elem_of_nil in Hk.
      destruct Hk as [->|[->|[->|[->|[->|[->|[->|[->|[]]]]]]]]];
        rewrite (field_present _ _ _ _ _ Hv) in *; by eexists.
    + intros v Hv. rewrite (field_present _ _ _ _ _ Hv) in E8. by eexists.
Qed.

Lemma Unmarshal_host file c :
  Unmarshal file = inr c →
  field decodeString "" (viperGet file "activedirectory.host")
  = inr (Host (ActiveDirectory c))
  ∧ field decodeBool false (viperGet file "logging.enabled")
    = inr (Enabled (Logging c))
  ∧ field decodeString "" (viperGet file "logging.location")
    = inr (Location (Logging c)).
Proof.
  unfold Unmarshal. intros E.
  repeat match type of E with
  | andThen ?f _ = _ => destruct f; simpl in E; [done|]
  end.
  by simplify_eq.
Qed.

Lemma loadConfig_Panic m p :
  loadConfig m = Panic p →
  (∃ err, ReadInConfig m = inl err)
  ∨ (∃ file, ReadInConfig m = inr file ∧ ¬ wellFormed file).
Proof.
  unfold loadConfig. destruct (ReadInConfig m) as [err|file]; [by eauto|].
  destruct (Unmarshal file) as [err|c] eqn:E; [|done]. intros _. right.
  exists file. split; [done|]. intros [c Hc]%Unmarshal_wellFormed. congruence.
Qed.

(** C10 (amended).  A configuration file that can be read, whose values
    decode, and that has no [activedirectory.host] key loads with the
    host "127.0.0.1" (and with logging disabled when it has no
    [logging.enabled] key, with the log location "." when it has no
    [logging.location] key); then, unless logging is enabled and the log
    file cannot be opened, the program goes on to its first phase and
    every address it dials is that of the default host.  The program
    stops before its first phase exactly when the file is unreadable,
    or a value of the file does not decode, or logging is enabled and
    the log file cannot be opened. *)
Theorem default_host_and_fatal_startup m s :
  (∀ file,
     ReadInConfig m = inr file →
     wellFormed file →
     file !! "activedirectory.host" = None →
     ∃ c, loadConfig m = Ok c
          ∧ Host (ActiveDirectory c) = "127.0.0.1"
          ∧ (file !! "logging.enabled" = None → Enabled (Logging c) = false)
          ∧ (file !! "logging.location" = None → Location (Logging c) = ".")
          ∧ ((Enabled (Logging c) = true →
              OpenFile m (Join (Location (Logging c)) (logfilename (Today m)))
              = None) →
             (∃ fs, entered (events (main m) s) = FlistADUsers :: fs)
             ∧ Forall (fun u => u = "ldap://127.0.0.1:389")
                      (dialed (events (main m) s))))
  ∧ (entered (events (main m) s) = []
     ↔ (∃ err, ReadInConfig m = inl err)
       ∨ (∃ file, ReadInConfig m = inr file ∧ ¬ wellFormed file)
       ∨ (∃ c err, loadConfig m = Ok c ∧ Enabled (Logging c) = true
                   ∧ OpenFile m (Join (Location (Logging c))
                                      (logfilename (Today m))) = Some err)).
Proof.
  split.
  - intros file Hread Hwf Hhost.
    destruct (proj1 (Unmarshal_wellFormed file) Hwf) as [c Hc].
    destruct (Unmarshal_host file c Hc) as (Eh & Ee & El).
    rewrite (default_host file Hhost) in Eh.
    exists c. split; [by unfold loadConfig; rewrite Hread, Hc|].
    split; [congruence|].
    split; [intros E; rewrite (default_enabled file E) in Ee; congruence|].
    split; [intros E; rewrite (default_location file E) in El; congruence|].
    intros Hlog.
    assert (loadConfig m = Ok c) as Hload
      by (by unfold loadConfig; rewrite Hread, Hc).
    assert (∃ s0, config s0 = c ∧ events (main m) s = events phases s0)
      as (s0 & Ec & ->).
    { unfold events, exec. rewrite main_eq, Hload.
      destruct (Enabled (Logging c)); [rewrite Hlog by done|].
      - by exists (set_loggers (Some {| prefix := "ERROR: " |})
                              (Some {| prefix := "INFO: " |})
                              (set_config c s)).
      - by exists (set_config c s). }
    split; [apply phases_entered|].
    assert (Host (ActiveDirectory (config s0)) = "127.0.0.1") as Eh'
      by congruence.
    pose proof (phases_dialed s0) as Hd. by rewrite Eh' in Hd.
  - unfold events, exec. rewrite main_eq.
    destruct (loadConfig m) as [c|p] eqn:Hload.
    + destruct (Enabled (Logging c)) eqn:Hen;
        [destruct (OpenFile m _) as [err|] eqn:Hopen|].
      * simpl. rewrite drop_all. split; [|done]. intros _. right. right.
        by exists c, err.
      * fold (exec phases (set_loggers (Some {| prefix := "ERROR: " |})
                             (Some {| prefix := "INFO: " |}) (set_config c s))).
        change (trace s) with
          (trace (set_loggers (Some {| prefix := "ERROR: " |})
                    (Some {| prefix := "INFO: " |}) (set_config c s))).
        fold (events phases (set_loggers (Some {| prefix := "ERROR: " |})
                             (Some {| prefix := "INFO: " |}) (set_config c s))).
        destruct (phases_entered (set_loggers (Some {| prefix := "ERROR: " |})
                    (Some {| prefix := "INFO: " |}) (set_config c s)))
          as [fs ->].
        split; [done|]. intros [[err E]|[(file & E & Hn)|(c' & err & ? & ? & ?)]].
        -- unfold loadConfig in Hload. by rewrite E in Hload.
        -- unfold loadConfig in Hload. rewrite E in Hload.
           destruct Hn. apply Unmarshal_wellFormed.
           destruct (Unmarshal file); [done|by eexists].
        -- congruence.
      * fold (exec phases (set_config c s)).
        change (trace s) with (trace (set_config c s)).
        fold (events phases (set_config c s)).
        destruct (phases_entered (set_config c s)) as [fs ->].
        split; [done|]. intros [[err E]|[(file & E & Hn)|(c' & err & ? & ? & ?)]].
        -- unfold loadConfig in Hload. by rewrite E in Hload.
        -- unfold loadConfig in Hload. rewrite E in Hload.
           destruct Hn. apply Unmarshal_wellFormed.
           destruct (Unmarshal file); [done|by eexists].
        -- congruence.
    + simpl. rewrite drop_all. split; [|done]. intros _.
      destruct (loadConfig_Panic m p Hload) as [?|?]; tauto.
Qed.

End Startup.

(** * Runs on the small directory *)

Import Toy Pool.

(** C3.  With one account and a group entry that has no member
    attribute, [listGroupUsers] panics with an index out of range: the
    Group Member Set stays empty, [synchronizeGroup] is never entered
    and the provisioner is never called. *)
Theorem group_without_members_panics :
  let s := initial (directory ["cn=alice"]
                              [{| DN := "cn=staff"; Attributes := [] |}] []) in
  outcome (main (machine ∅ true)) s = Panic (PanicRuntime "index out of range")
  ∧ entered (events (main (machine ∅ true)) s) = [FlistADUsers; FlistGroupUsers]
  ∧ adUsers (exec (main (machine ∅ true)) s) = ["CN=ALICE"]
  ∧ groupUsers (exec (main (machine ∅ true)) s) = []
  ∧ provisioned (events (main (machine ∅ true)) s) = [].
Proof. by vm_compute. Qed.

(** C1, as stated, fails: the addition of "ALICE" is refused by the
    server, the run is aborted, and "CARL", who is in the Account Set
    and not in the Group Member Set, is never passed to the
    provisioner. *)
Lemma refused_addition_leaves_difference :
  let s := ready ["ALICE"; "BOB"; "CARL"] ["BOB"] ["ALICE"] in
  "CARL" ∈ adUsers s ∧ ("CARL" ∉ groupUsers s)
  ∧ ("CARL" ∉ provisioned (events synchronizeGroup s)).
Proof.
  intros s. repeat split; apply (bool_decide_unpack _); by vm_compute.
Qed.

(** C2, as stated, fails on its own example: when the server cannot be
    reached, the first call panics and the sequence of identifiers
    passed to the provisioner is "ALICE" alone, not "ALICE" then
    "CARL". *)
Lemma unreachable_server_cuts_sequence :
  let s := set_server (unreachable (directory [] [] []))
                      (ready ["ALICE"; "BOB"; "CARL"] ["BOB"] []) in
  filter (fun x => x ∉ groupUsers s) (adUsers s) = ["ALICE"; "CARL"]
  ∧ provisioned (events synchronizeGroup s) = ["ALICE"].
Proof. by vm_compute. Qed.

(** C10, as stated, fails: the file is read, its one value decodes and
    it has no [activedirectory.host] key, yet logging is enabled, the
    log file cannot be opened, and [main] panics before its first
    phase. *)
Lemma log_file_failure_is_fatal :
  let file : gmap string Value := {["logging.enabled" := VBool true]} in
  let s := initial (directory ["cn=alice"] [group []] []) in
  ReadInConfig (machine file false) = inr file
  ∧ wellFormed file
  ∧ file !! "activedirectory.host" = None
  ∧ outcome (main (machine file false)) s
    = Panic (PanicError "failed to open log file: permission denied")
  ∧ events (main (machine file false)) s = [].
Proof.
  intros file s. split; [done|]. split.
  { apply Unmarshal_wellFormed. eexists. by vm_compute. }
  by vm_compute.
Qed.

(** * The claims on examples *)

Lemma provisioned_is_difference_witness :
  let s := ready ["ALICE"; "BOB"; "CARL"] ["BOB"] [] in
  outcome synchronizeGroup s = Ok tt
  ∧ ∀ x, x ∈ provisioned (events synchronizeGroup s)
         ↔ x ∈ adUsers s ∧ x ∉ groupUsers s.
Proof.
  intros s. split; [by vm_compute|].
  apply (proj2 (provisioned_is_difference s)). by vm_compute.
Defined.

Lemma provisioned_in_order_witness :
  let s := ready ["ALICE"; "BOB"; "CARL"; "ALICE"] ["BOB"] [] in
  outcome synchronizeGroup s = Ok tt
  ∧ provisioned (events synchronizeGroup s)
    = filter (fun x => x ∉ groupUsers s) (adUsers s).
Proof.
  intros s. split; [by vm_compute|].
  apply (proj2 (provisioned_in_order s)). by vm_compute.
Defined.

(** Scenario 1 and Scenario 2. *)
Example scenario_1 :
  provisioned (events synchronizeGroup
                 (ready ["ALICE"; "BOB"; "CARL"] ["BOB"] []))
  = ["ALICE"; "CARL"].
Proof. by vm_compute. Qed.

Example scenario_2 :
  provisioned (events synchronizeGroup (ready ["ALICE"] ["ALICE"] [])) = [].
Proof. by vm_compute. Qed.

(** An account listed twice and missing from the group is provisioned
    twice. *)
Example duplicates_are_provisioned_twice :
  provisioned (events synchronizeGroup (ready ["ALICE"; "ALICE"] [] []))
  = ["ALICE"; "ALICE"].
Proof. by vm_compute. Qed.

Lemma case_differences_are_members_witness :
  let s := initial (directory ["cn=alice"; "cn=Bob"] [group ["CN=bob"]] []) in
  ToUpper "cn=Bob" = ToUpper "CN=bob"
  ∧ groupUsers (exec (main (machine ∅ true)) s) = ["CN=BOB"]
  ∧ (ToUpper "cn=Bob" ∉ provisioned (events (main (machine ∅ true)) s)).
Proof.
  intros s. split; [done|].
  destruct (case_differences_are_members (machine ∅ true) s) as [_ H].
  destruct (H (config (exec (main (machine ∅ true)) s)) 0
              {| Entries := [group ["CN=bob"]] |}
              (group ["CN=bob"])
              {| Name := "member"; Values := ["CN=bob"] |})
    as [Eg Hno].
  - apply list_elem_of_lookup_2 with 8. by vm_compute.
  - done.
  - done.
  - split; [exact Eg|]. apply (Hno "cn=Bob" "CN=bob"); [|done].
    apply list_elem_of_here.
Defined.

Lemma empty_account_search_is_fatal_witness :
  let s := initial (directory [] [group ["CN=bob"]] []) in
  outcome (main (machine ∅ true)) s
  = Panic (PanicError "no results returned from ldap search")
  ∧ entered (events (main (machine ∅ true)) s) = [FlistADUsers].
Proof.
  intros s.
  destruct (proj1 (empty_account_search_is_fatal (machine ∅ true) s)
              (config (exec (main (machine ∅ true)) s)) 0 {| Entries := [] |})
    as [E1 E2].
  - apply list_elem_of_lookup_2 with 3. by vm_compute.
  - done.
  - split; [exact E1 | exact E2].
Defined.


Lemma second_run_provisions_nothing_witness :
  let s := ready ["ALICE"; "BOB"; "CARL"] ["BOB"] [] in
  let s' := ready ["ALICE"; "BOB"; "CARL"] ["BOB"; "ALICE"; "CARL"] [] in
  provisioned (events synchronizeGroup s') = []
  ∧ outcome synchronizeGroup s' = Ok tt.
Proof.
  intros s s'. apply (second_run_provisions_nothing s s'); by vm_compute.
Defined.

Lemma only_first_group_entry_is_used_witness :
  let s := initial (directory [] [group ["cn=bob"]; group ["cn=eve"]] []) in
  outcome listGroupUsers s = Ok tt
  ∧ groupUsers (exec listGroupUsers s) = ["CN=BOB"].
Proof.
  intros s.
  destruct (only_first_group_entry_is_used s 0 (groupSearch (config s))
              (group ["cn=bob"]) [group ["cn=eve"]]
              {| Name := "member"; Values := ["cn=bob"] |} [])
    as [E1 E2].
  - apply list_elem_of_lookup_2 with 3. by vm_compute.
  - done.
  - split; [exact E1 | exact E2].
Defined.

Lemma sessions_are_closed_witness :
  let s : State nat nat := initial 0 in
  opened (events listADUsers s) = [0]
  ∧ last (events listADUsers s) = Some (EvClose 0)
  ∧ (∃ srv, server (exec listADUsers s) = Nat.pred srv)
  ∧ server (exec listADUsers s) = 0.
Proof.
  intros s. split; [by vm_compute|].
  destruct (proj1 (sessions_are_closed s "cn=bob")) as (_ & _ & H & E).
  destruct (H 0) as [Hlast Hsrv].
  - apply list_elem_of_lookup_2 with 0. by vm_compute.
  - split; [exact Hlast|]. split; [exact Hsrv|].
    transitivity (replay (events listADUsers s) (server s)); [exact E|].
    by vm_compute.
Defined.

Lemma default_host_and_fatal_startup_witness :
  let s := initial (directory ["cn=alice"] [group []] []) in
  ∃ c, loadConfig (machine ∅ true) = Ok c
       ∧ Host (ActiveDirectory c) = "127.0.0.1"
       ∧ Enabled (Logging c) = false
       ∧ Location (Logging c) = "."
       ∧ dialed (events (main (machine ∅ true)) s)
         = ["ldap://127.0.0.1:389"; "ldap://127.0.0.1:389";
            "ldap://127.0.0.1:389"].
Proof.
  intros s.
  destruct (proj1 (default_host_and_fatal_startup (machine ∅ true) s) ∅)
    as (c & Hc & Hh & He & Hl & _).
  - done.
  - split; intros; by rewrite lookup_empty in *.
  - done.
  - exists c. split; [done|]. split; [done|]. split; [by apply He|].
    split; [by apply Hl|]. by vm_compute.
Defined.

(** * Further properties of the program *)

(** Closes what [settle] leaves when the loggers of the state matter. *)
Ltac settle_logs :=
  settle;
  repeat match goal with
         | H : infoLogger _ = _ |- _ => rewrite H; clear H
         | H : errorLogger _ = _ |- _ => rewrite H; clear H
         end;
  simpl; try done.

Section OperationDetails.

Context {Server Conn : Type} `{!LdapClient Server Conn} `{!GoLib}.

Implicit Types (s : State Server Conn) (evs : list (Event Conn)).
Implicit Types (A G : list string) (x name : string).

Lemma addUserToGroup_detail name s :
  let s' := exec (addUserToGroup name) s in
  let evs := events (addUserToGroup name) s in
  oneSession 0 evs = true
  ∧ (∀ err, err ∈ dialErrors evs →
       outcome (addUserToGroup name) s
       = Panic (fatal s ("unable to connect to AD server: " +:+ err))
       ∧ binds evs = [] ∧ modifies evs = [] ∧ opened evs = [])
  ∧ (∀ u p err, (u, p, Some err) ∈ binds evs →
       outcome (addUserToGroup name) s
       = Panic (fatal s ("unable to bind to ldap: " +:+ err))
       ∧ modifies evs = [])
  ∧ (∀ u p r, (u, p, r) ∈ binds evs →
       u = bindName (config s) ∧ p = Password (ActiveDirectory (config s)))
  ∧ (∀ req r, (req, r) ∈ modifies evs →
       req = groupModify (config s) name
       ∧ binds evs
         = [(bindName (config s), Password (ActiveDirectory (config s)), None)]
       ∧ outcome (addUserToGroup name) s
         = match r with
           | None => Ok tt
           | Some err => Panic (fatal s ("ldap modify error: " +:+ err))
           end)
  ∧ (outcome (addUserToGroup name) s = Ok tt →
     modifies evs = [(groupModify (config s) name, None)])
  ∧ logged evs
    = match outcome (addUserToGroup name) s with
      | Ok _ => logLine (infoLogger s) (name +:+ " added to group")
      | Panic (PanicString msg) => logLine (errorLogger s) msg
      | Panic _ => []
      end.
Proof. unfold addUserToGroup. run; settle_logs. Qed.


Lemma listADUsers_detail s :
  let s' := exec listADUsers s in
  let evs := events listADUsers s in
  oneSession 0 evs = true
  ∧ modifies evs = []
  ∧ (∀ err, err ∈ dialErrors evs →
       outcome listADUsers s
       = Panic (fatal s ("unable to connect to AD server: " +:+ err))
       ∧ binds evs = [] ∧ searches evs = [] ∧ opened evs = []
       ∧ adUsers s' = adUsers s)
  ∧ (∀ u p err, (u, p, Some err) ∈ binds evs →
       outcome listADUsers s
       = Panic (fatal s ("unable to bind to ldap: " +:+ err))
       ∧ searches evs = [] ∧ adUsers s' = adUsers s)
  ∧ (∀ u p r, (u, p, r) ∈ binds evs →
       u = bindName (config s) ∧ p = Password (ActiveDirectory (config s)))
  ∧ (∀ req r, (req, r) ∈ searches evs →
       binds evs
       = [(bindName (config s), Password (ActiveDirectory (config s)), None)])
  ∧ (∀ req err, (req, inl err) ∈ searches evs →
       outcome listADUsers s
       = Panic (fatal s ("ldap search error: " +:+ err))
       ∧ adUsers s' = adUsers s)
  ∧ logged evs
    = match outcome listADUsers s with
      | Ok _ => logLine (infoLogger s)
                        (Itoa (length (adUsers s')) +:+ " records retrieved")
      | Panic (PanicString msg) => logLine (errorLogger s) msg
      | Panic _ => []
      end.
Proof. unfold listADUsers. run; settle_logs. Qed.

Lemma listGroupUsers_detail s :
  let s' := exec listGroupUsers s in
  let evs := events listGroupUsers s in
  oneSession 0 evs = true
  ∧ modifies evs = []
  ∧ (∀ err, err ∈ dialErrors evs →
       outcome listGroupUsers s
       = Panic (fatal s ("unable to connect to AD server: " +:+ err))
       ∧ binds evs = [] ∧ searches evs = [] ∧ opened evs = []
       ∧ groupUsers s' = groupUsers s)
  ∧ (∀ u p err, (u, p, Some err) ∈ binds evs →
       outcome listGroupUsers s
       = Panic (fatal s ("unable to bind to ldap: " +:+ err))
       ∧ searches evs = [] ∧ groupUsers s' = groupUsers s)
  ∧ (∀ u p r, (u, p, r) ∈ binds evs →
       u = bindName (config s) ∧ p = Password (ActiveDirectory (config s)))
  ∧ (∀ req r, (req, r) ∈ searches evs →
       binds evs
       = [(bindName (config s), Password (ActiveDirectory (config s)), None)])
  ∧ (∀ req err, (req, inl err) ∈ searches evs →
       outcome listGroupUsers s
       = Panic (fatal s ("ldap search error: " +:+ err))
       ∧ groupUsers s' = groupUsers s)
  ∧ logged evs
    = match outcome listGroupUsers s with
      | Ok _ => logLine (infoLogger s)
                        (Itoa (length (groupUsers s')) +:+ " users in group")
      | Panic (PanicString msg) => logLine (errorLogger s) msg
      | Panic _ => []
      end.
Proof. unfold listGroupUsers. run; settle_logs. Qed.

End OperationDetails.

Section RunDetails.

Context {Server Conn : Type} `{!LdapClient Server Conn} `{!GoLib}.

Implicit Types (s : State Server Conn) (evs : list (Event Conn)).
Implicit Types (A G : list string) (x name : string).
Implicit Types (steps : list (string * State Server Conn)).

Lemma logged_app evs1 evs2 :
  logged (evs1 ++ evs2) = logged evs1 ++ logged evs2.
Proof. apply omap_app. Qed.

Lemma modifies_app evs1 evs2 :
  modifies (evs1 ++ evs2) = modifies evs1 ++ modifies evs2.
Proof. apply omap_app. Qed.

Lemma binds_app evs1 evs2 :
  binds (evs1 ++ evs2) = binds evs1 ++ binds evs2.
Proof. apply omap_app. Qed.

Lemma opened_app evs1 evs2 :
  opened (evs1 ++ evs2) = opened evs1 ++ opened evs2.
Proof. apply omap_app. Qed.

Lemma closed_app evs1 evs2 :
  closed (evs1 ++ evs2) = closed evs1 ++ closed evs2.
Proof. apply omap_app. Qed.

Lemma oneSession_app n evs1 evs2 :
  oneSession n evs1 = true →
  oneSession n (evs1 ++ evs2) = oneSession 0 evs2.
Proof.
  revert n. induction evs1 as [|e evs1 IH]; intros n; simpl.
  - by intros ->%bool_decide_eq_true.
  - destruct e as [f|url [err|l]|l u p r|l req r|l req r|l|lg msg];
      try apply IH;
      intros [Hn Hrest]%andb_true_iff; rewrite Hn; simpl; by apply IH.
Qed.

(** ** The calls of the synchronizer, one by one *)

(** The events of the loop of [synchronizeGroup] are those of its calls
    of [addUserToGroup], each made in a state with the configuration,
    the loggers and the two lists of the start. *)
Lemma forRange_syncStep_steps A s :
  ∃ steps,
    events (forRange A syncStep) s
    = concat ((fun c => events (addUserToGroup c.1) c.2) <$> steps)
    ∧ steps.*1 `prefix_of` missing A (groupUsers s)
    ∧ Forall (fun c => sameGlobals s c.2) steps
    ∧ (outcome (forRange A syncStep) s = Ok tt →
       steps.*1 = missing A (groupUsers s)
       ∧ Forall (fun c => outcome (addUserToGroup c.1) c.2 = Ok tt) steps).
Proof.
  revert s. induction A as [|x A IH]; intros s.
  - exists []. unfold events, exec, outcome; simpl.
    rewrite drop_all. by repeat split.
  - change (forRange (x :: A) syncStep)
      with (syncStep x ≫= fun _ => forRange A syncStep).
    destruct (syncStep_run x s)
      as (Et & Ec & Ee & Ei & Ea & Eg & _ & _ & _ & Hf).
    pose proof (syncStep_eq x s) as Eq.
    destruct (found x (groupUsers s)) eqn:Hx.
    + destruct (IH s) as (steps & Ev & Hp & Hg & Hok).
      assert (∀ B (k : unit → M Server Conn B), (syncStep x ≫= k) s = k tt s)
        as Ek by (intros; by apply bind_Ok).
      exists steps. unfold events, exec, outcome in *. rewrite Ek.
      by rewrite (missing_cons_found _ _ _ Hx).
    + rewrite (missing_cons_new _ _ _ Hx).
      assert (events (syncStep x) s = events (addUserToGroup x) s) as Ev1
        by (unfold events, exec; by rewrite Eq).
      assert (outcome (syncStep x) s = outcome (addUserToGroup x) s) as Eo1
        by (unfold outcome; by rewrite Eq).
      destruct (outcome (syncStep x) s) as [[]|p] eqn:Ho.
      * destruct (IH (exec (syncStep x) s)) as (steps & Ev & Hp & Hg & Hok).
        destruct (forRange_syncStep A (exec (syncStep x) s)) as (Et' & _).
        destruct (seq_Ok (syncStep x) (fun _ => forRange A syncStep) s tt)
          as (-> & _ & -> & _); try done.
        exists ((x, s) :: steps). rewrite Eg in Hp, Hok. csimpl.
        rewrite Ev, Ev1. split; [done|]. split; [by apply prefix_cons|].
        split.
        { apply Forall_cons. split; [done|].
          eapply Forall_impl; [exact Hg|]. intros c (? & ? & ? & ? & ?).
          unfold sameGlobals. by rewrite <- Ec, <- Ee, <- Ei, <- Ea, <- Eg. }
        intros Hall. destruct (Hok Hall) as [-> HF].
        split; [done|]. apply Forall_cons. by split.
      * destruct (seq_Panic (syncStep x) (fun _ => forRange A syncStep) s p)
          as (-> & _ & ->); try done.
        exists [(x, s)]. csimpl. rewrite app_nil_r.
        split; [done|]. split; [apply prefix_cons, prefix_nil|].
        split; [by apply Forall_singleton|]. done.
Qed.


Local Abbreviation callEvents steps :=
  (concat ((fun c => events (addUserToGroup c.1) c.2) <$> steps)).

Lemma addUserToGroup_one_modify name s :
  (length (modifies (events (addUserToGroup name) s)) ≤ 1)%nat.
Proof. unfold addUserToGroup. run; settle. Qed.

Lemma calls_oneSession steps : oneSession 0 (callEvents steps) = true.
Proof.
  induction steps as [|c steps IH]; [done|]. csimpl.
  destruct (addUserToGroup_detail c.1 c.2) as (H1 & _).
  by rewrite (oneSession_app _ _ _ H1).
Qed.

Lemma calls_closed steps :
  closed (callEvents steps) = opened (callEvents steps).
Proof.
  induction steps as [|c steps IH]; [done|]. csimpl.
  destruct (addUserToGroup_sessions c.1 c.2) as (H1 & _).
  by rewrite closed_app, opened_app, H1, IH.
Qed.

Lemma calls_dialed steps :
  length (dialed (callEvents steps)) = length steps.
Proof.
  induction steps as [|c steps IH]; [done|]. csimpl.
  destruct (addUserToGroup_run c.1 c.2) as (_ & _ & _ & _ & _ & _ & _ & _ & H1).
  rewrite dialed_app, length_app, H1, IH. done.
Qed.

Lemma calls_modifies_le steps :
  (length (modifies (callEvents steps)) ≤ length steps)%nat.
Proof.
  induction steps as [|c steps IH]; [done|]. csimpl.
  pose proof (addUserToGroup_one_modify c.1 c.2).
  rewrite modifies_app, length_app. lia.
Qed.

Lemma calls_modifies_Ok steps :
  Forall (fun c => outcome (addUserToGroup c.1) c.2 = Ok tt) steps →
  modifies (callEvents steps)
  = (fun c => (groupModify (config c.2) c.1, None)) <$> steps.
Proof.
  induction 1 as [|c steps Hc _ IH]; [done|]. csimpl.
  destruct (addUserToGroup_detail c.1 c.2) as (_ & _ & _ & _ & _ & H1 & _).
  by rewrite modifies_app, (H1 Hc), IH.
Qed.

Lemma calls_modifies_elem_of steps req r :
  (req, r) ∈ modifies (callEvents steps) →
  ∃ c, c ∈ steps ∧ req = groupModify (config c.2) c.1.
Proof.
  induction steps as [|c steps IH]; csimpl; [by intros ?%elem_of_nil|].
  rewrite modifies_app, elem_of_app. intros [Hin|Hin].
  - destruct (addUserToGroup_detail c.1 c.2) as (_ & _ & _ & _ & H1 & _).
    destruct (H1 _ _ Hin) as [-> _]. exists c. split; [apply list_elem_of_here|done].
  - destruct (IH Hin) as (c' & ? & ?). exists c'.
    split; [by apply list_elem_of_further|done].
Qed.

Lemma calls_binds_elem_of steps u p r :
  (u, p, r) ∈ binds (callEvents steps) →
  ∃ c, c ∈ steps ∧ u = bindName (config c.2)
       ∧ p = Password (ActiveDirectory (config c.2)).
Proof.
  induction steps as [|c steps IH]; csimpl; [by intros ?%elem_of_nil|].
  rewrite binds_app, elem_of_app. intros [Hin|Hin].
  - destruct (addUserToGroup_detail c.1 c.2) as (_ & _ & _ & H1 & _).
    destruct (H1 _ _ _ Hin) as [-> ->]. exists c.
    split; [apply list_elem_of_here|done].
  - destruct (IH Hin) as (c' & ? & ?). exists c'.
    split; [by apply list_elem_of_further|done].
Qed.

Lemma calls_logged_Ok steps :
  Forall (fun c => outcome (addUserToGroup c.1) c.2 = Ok tt) steps →
  logged (callEvents steps)
  = steps ≫= fun c => logLine (infoLogger c.2) (c.1 +:+ " added to group").
Proof.
  induction 1 as [|c steps Hc _ IH]; [done|]. csimpl.
  destruct (addUserToGroup_detail c.1 c.2) as (_ & _ & _ & _ & _ & _ & H1).
  rewrite Hc in H1. by rewrite logged_app, H1, IH.
Qed.

Lemma calls_logged_none steps :
  Forall (fun c => errorLogger c.2 = None ∧ infoLogger c.2 = None) steps →
  logged (callEvents steps) = [].
Proof.
  induction 1 as [|c steps [He Hi] _ IH]; [done|]. csimpl.
  destruct (addUserToGroup_detail c.1 c.2) as (_ & _ & _ & _ & _ & _ & H1).
  rewrite logged_app, IH, H1, He, Hi.
  by destruct (outcome (addUserToGroup c.1) c.2) as [|[]].
Qed.

(** The events of [synchronizeGroup]: its own entry, then its calls. *)
Lemma synchronizeGroup_steps s :
  ∃ steps,
    events synchronizeGroup s = EvEnter FsynchronizeGroup :: callEvents steps
    ∧ steps.*1 = provisioned (events synchronizeGroup s)
    ∧ steps.*1 `prefix_of` missing (adUsers s) (groupUsers s)
    ∧ Forall (fun c => sameGlobals s c.2) steps
    ∧ (outcome synchronizeGroup s = Ok tt →
       steps.*1 = missing (adUsers s) (groupUsers s)
       ∧ Forall (fun c => outcome (addUserToGroup c.1) c.2 = Ok tt) steps).
Proof.
  set (s0 := emit (EvEnter FsynchronizeGroup) s).
  assert (synchronizeGroup s = forRange (adUsers s) syncStep s0) as E by done.
  destruct (forRange_syncStep_steps (adUsers s) s0) as (steps & Ev & Hp & Hg & Hok).
  destruct (forRange_syncStep (adUsers s) s0) as (Et & _ & _ & _ & _ & _ & _ & _ & cs & En & _).
  assert (events synchronizeGroup s
          = [EvEnter FsynchronizeGroup] ++ events (forRange (adUsers s) syncStep) s0)
    as Ev'.
  { apply events_of_trace. unfold exec at 1. rewrite E.
    fold (exec (forRange (adUsers s) syncStep) s0). rewrite Et. simpl.
    by rewrite <- app_assoc. }
  assert (steps.*1 = cs) as Ecs.
  { rewrite Ev in En. clear -En. revert cs En.
    induction steps as [|c steps IH]; intros cs; csimpl.
    - by destruct cs.
    - destruct (addUserToGroup_run c.1 c.2)
        as (_ & _ & _ & _ & _ & _ & H1 & _).
      rewrite entered_app, H1. destruct cs as [|c' cs]; csimpl; [done|].
      intros [= -> E]. f_equal. by apply IH. }
  exists steps. rewrite Ev', Ev. simpl.
  split; [done|]. split.
  { rewrite <- Ev, provisioned_entered, En, omap_added. done. }
  split; [done|]. split; [done|].
  unfold outcome in *. by rewrite E.
Qed.


Lemma calls_config steps s :
  Forall (fun c => sameGlobals s c.2) steps →
  (fun c => (groupModify (config c.2) c.1, @None string)) <$> steps
  = (fun x => (groupModify (config s) x, None)) <$> steps.*1.
Proof.
  induction 1 as [|c steps (Ec & _) _ IH]; [done|]. csimpl.
  by rewrite Ec, IH.
Qed.

Lemma calls_info steps s :
  Forall (fun c => sameGlobals s c.2) steps →
  (steps ≫= fun c => logLine (infoLogger c.2) (c.1 +:+ " added to group"))
  = (steps.*1 ≫= fun x => logLine (infoLogger s) (x +:+ " added to group")).
Proof.
  induction 1 as [|c steps (_ & _ & Ei & _) _ IH]; [done|]. csimpl.
  by rewrite Ei, IH.
Qed.

Lemma writeInfo_detail msg s :
  let evs := events (writeInfo msg) s in
  logged evs = logLine (infoLogger s) msg
  ∧ modifies evs = [] ∧ binds evs = [] ∧ oneSession 0 evs = true
  ∧ opened evs = [] ∧ closed evs = [].
Proof. run; settle_logs; by rewrite drop_all. Qed.

Lemma missing_nil A : missing A [] = A.
Proof.
  unfold missing. induction A as [|x A IH]; [done|].
  rewrite filter_cons_True; [by rewrite IH|]. by intros ?%elem_of_nil.
Qed.

(** ** The synchronizer *)

(** X1.  Every call of the provisioner dials once, so the synchronizer
    dials as many times as it calls the provisioner; it requests at
    most one modification per call; and in a run that is not aborted
    the modifications requested are, in order, the addition of each
    missing account as one value of the attribute "member" of the
    group entry. *)
Theorem one_session_per_call s :
  length (dialed (events synchronizeGroup s))
  = length (provisioned (events synchronizeGroup s))
  ∧ (length (modifies (events synchronizeGroup s))
     ≤ length (provisioned (events synchronizeGroup s)))%nat
  ∧ (outcome synchronizeGroup s = Ok tt →
     modifies (events synchronizeGroup s)
     = (fun x => (groupModify (config s) x, None))
         <$> missing (adUsers s) (groupUsers s)).
Proof.
  destruct (synchronizeGroup_steps s) as (steps & -> & <- & _ & Hg & Hok).
  rewrite length_fmap. simpl. split; [apply calls_dialed|].
  split; [apply calls_modifies_le|].
  intros Ho. destruct (Hok Ho) as [<- Hall].
  by rewrite (calls_modifies_Ok _ Hall), (calls_config _ _ Hg).
Qed.

(** X2.  When every account is already in the Group Member Set, the
    synchronizer returns having only been entered: it dials nothing,
    logs nothing and leaves the directory as it was. *)
Theorem nothing_missing_no_contact s :
  (∀ x, x ∈ adUsers s → x ∈ groupUsers s) →
  outcome synchronizeGroup s = Ok tt
  ∧ events synchronizeGroup s = [EvEnter FsynchronizeGroup]
  ∧ server (exec synchronizeGroup s) = server s.
Proof.
  intros Hall.
  assert (synchronizeGroup s = (Ok tt, emit (EvEnter FsynchronizeGroup) s)) as E.
  { change (synchronizeGroup s)
      with (forRange (adUsers s) syncStep (emit (EvEnter FsynchronizeGroup) s)).
    by apply forRange_all_found. }
  unfold outcome, events, exec. rewrite E. simpl.
  by rewrite drop_app_length.
Qed.

(** X3.  With an empty Group Member Set, a run of the synchronizer that
    is not aborted calls the provisioner for every account of the
    Account Set, in order. *)
Theorem empty_group_provisions_all s :
  groupUsers s = [] →
  outcome synchronizeGroup s = Ok tt →
  provisioned (events synchronizeGroup s) = adUsers s.
Proof.
  intros Hg Ho. destruct (synchronizeGroup_calls s) as [_ Hok].
  rewrite (Hok Ho), Hg. apply missing_nil.
Qed.


(** ** Failures of the directory *)

Lemma dialErrors_elem_of evs url err :
  EvDial url (inl err) ∈ evs → err ∈ dialErrors evs.
Proof. intros Hin. apply list_elem_of_omap. by exists (EvDial url (inl err)). Qed.

Lemma binds_elem_of evs l u p r :
  EvBind l u p r ∈ evs → (u, p, r) ∈ binds evs.
Proof. intros Hin. apply list_elem_of_omap. by exists (EvBind l u p r). Qed.

Lemma modifies_elem_of evs l req r :
  EvModify l req r ∈ evs → (req, r) ∈ modifies evs.
Proof. intros Hin. apply list_elem_of_omap. by exists (EvModify l req r). Qed.

Lemma modifies_elem_of_inv evs req r :
  (req, r) ∈ modifies evs → ∃ l, EvModify l req r ∈ evs.
Proof.
  intros ([] & Hin & E)%list_elem_of_omap; simplify_eq. by eexists.
Qed.

(** X4.  In each of the three operations, a dial that fails makes the
    operation panic with the error of the dial after "unable to connect
    to AD server: "; no session is opened and no bind is attempted, and
    the lists are as before. *)
Theorem connection_failure_is_fatal s name url err :
  (EvDial url (inl err) ∈ events listADUsers s →
   outcome listADUsers s
   = Panic (fatal s ("unable to connect to AD server: " +:+ err))
   ∧ opened (events listADUsers s) = []
   ∧ binds (events listADUsers s) = []
   ∧ adUsers (exec listADUsers s) = adUsers s)
  ∧ (EvDial url (inl err) ∈ events listGroupUsers s →
     outcome listGroupUsers s
     = Panic (fatal s ("unable to connect to AD server: " +:+ err))
     ∧ opened (events listGroupUsers s) = []
     ∧ binds (events listGroupUsers s) = []
     ∧ groupUsers (exec listGroupUsers s) = groupUsers s)
  ∧ (EvDial url (inl err) ∈ events (addUserToGroup name) s →
     outcome (addUserToGroup name) s
     = Panic (fatal s ("unable to connect to AD server: " +:+ err))
     ∧ opened (events (addUserToGroup name) s) = []
     ∧ binds (events (addUserToGroup name) s) = []).
Proof.
  split; [|split]; intros Hin%dialErrors_elem_of.
  - destruct (listADUsers_detail s) as (_ & _ & H1 & _).
    by destruct (H1 _ Hin) as (? & ? & ? & ? & ?).
  - destruct (listGroupUsers_detail s) as (_ & _ & H1 & _).
    by destruct (H1 _ Hin) as (? & ? & ? & ? & ?).
  - destruct (addUserToGroup_detail name s) as (_ & H1 & _).
    by destruct (H1 _ Hin) as (? & ? & ? & ?).
Qed.

(** X5.  In each of the three operations, a bind that is refused makes
    the operation panic with the error of the bind after "unable to
    bind to ldap: "; no search and no modification is requested, and
    the lists are as before. *)
Theorem bind_failure_is_fatal s name l u p err :
  (EvBind l u p (Some err) ∈ events listADUsers s →
   outcome listADUsers s = Panic (fatal s ("unable to bind to ldap: " +:+ err))
   ∧ searches (events listADUsers s) = []
   ∧ adUsers (exec listADUsers s) = adUsers s)
  ∧ (EvBind l u p (Some err) ∈ events listGroupUsers s →
     outcome listGroupUsers s
     = Panic (fatal s ("unable to bind to ldap: " +:+ err))
     ∧ searches (events listGroupUsers s) = []
     ∧ groupUsers (exec listGroupUsers s) = groupUsers s)
  ∧ (EvBind l u p (Some err) ∈ events (addUserToGroup name) s →
     outcome (addUserToGroup name) s
     = Panic (fatal s ("unable to bind to ldap: " +:+ err))
     ∧ modifies (events (addUserToGroup name) s) = []).
Proof.
  split; [|split]; intros Hin%binds_elem_of.
  - destruct (listADUsers_detail s) as (_ & _ & _ & H1 & _).
    by destruct (H1 _ _ _ Hin) as (? & ? & ?).
  - destruct (listGroupUsers_detail s) as (_ & _ & _ & H1 & _).
    by destruct (H1 _ _ _ Hin) as (? & ? & ?).
  - destruct (addUserToGroup_detail name s) as (_ & _ & H1 & _).
    by destruct (H1 _ _ _ Hin) as (? & ?).
Qed.

(** X6.  In both listers, a search that fails makes the lister panic
    with the error of the search after "ldap search error: ", and the
    list it fills is as before. *)
Theorem search_failure_is_fatal s l req err :
  (EvSearch l req (inl err) ∈ events listADUsers s →
   outcome listADUsers s = Panic (fatal s ("ldap search error: " +:+ err))
   ∧ adUsers (exec listADUsers s) = adUsers s)
  ∧ (EvSearch l req (inl err) ∈ events listGroupUsers s →
     outcome listGroupUsers s = Panic (fatal s ("ldap search error: " +:+ err))
     ∧ groupUsers (exec listGroupUsers s) = groupUsers s).
Proof.
  split; intros Hin%searches_elem_of.
  - destruct (listADUsers_detail s) as (_ & _ & _ & _ & _ & _ & H1 & _).
    by apply H1 in Hin.
  - destruct (listGroupUsers_detail s) as (_ & _ & _ & _ & _ & _ & H1 & _).
    by apply H1 in Hin.
Qed.

(** X7.  The provisioner requests no modification other than the
    addition of [name] as one value of the attribute "member" of the
    entry "cn=<group>,<group base>"; it returns exactly when that
    request is accepted, and when the request is refused it panics with
    the error of the server after "ldap modify error: ". *)
Theorem provisioner_outcome name s :
  (∀ l req r,
     EvModify l req r ∈ events (addUserToGroup name) s →
     req = groupModify (config s) name
     ∧ outcome (addUserToGroup name) s
       = match r with
         | None => Ok tt
         | Some err => Panic (fatal s ("ldap modify error: " +:+ err))
         end)
  ∧ (outcome (addUserToGroup name) s = Ok tt
     ↔ ∃ l, EvModify l (groupModify (config s) name) None
            ∈ events (addUserToGroup name) s).
Proof.
  destruct (addUserToGroup_detail name s) as (_ & _ & _ & _ & H1 & H2 & _).
  split.
  - intros l req r Hin%modifies_elem_of. by destruct (H1 _ _ Hin) as (? & _ & ?).
  - split.
    + intros Ho. apply modifies_elem_of_inv. rewrite (H2 Ho).
      apply list_elem_of_here.
    + intros [l Hin%modifies_elem_of]. by destruct (H1 _ _ Hin) as (_ & _ & ?).
Qed.

(** X8.  No search and no modification is requested on a session that
    was not bound: when a lister searches, or the provisioner requests a
    modification, the one bind of the operation was made with
    "<domain>\<username>" and the configured password and was
    accepted. *)
Theorem requests_follow_a_bind s name l :
  let bound evs :=
    binds evs
    = [(bindName (config s), Password (ActiveDirectory (config s)), None)] in
  (∀ req r, EvSearch l req r ∈ events listADUsers s →
            bound (events listADUsers s))
  ∧ (∀ req r, EvSearch l req r ∈ events listGroupUsers s →
              bound (events listGroupUsers s))
  ∧ (∀ req r, EvModify l req r ∈ events (addUserToGroup name) s →
              bound (events (addUserToGroup name) s)).
Proof.
  intros bound. split; [|split]; intros req r.
  - intros Hin%searches_elem_of.
    destruct (listADUsers_detail s) as (_ & _ & _ & _ & _ & H1 & _).
    by apply H1 in Hin.
  - intros Hin%searches_elem_of.
    destruct (listGroupUsers_detail s) as (_ & _ & _ & _ & _ & H1 & _).
    by apply H1 in Hin.
  - intros Hin%modifies_elem_of.
    destruct (addUserToGroup_detail name s) as (_ & _ & _ & _ & H1 & _).
    by destruct (H1 _ _ Hin) as (_ & ? & _).
Qed.

(** ** What the listers collect *)

Lemma firstValue_Some (e : Entry) (v : string) :
  firstValue e = Some v →
  ∃ a, Attributes e !! 0 = Some a ∧ Values a !! 0 = Some v.
Proof.
  unfold firstValue. destruct (Attributes e !! 0) as [a|]; [|done]. by exists a.
Qed.

Lemma firstValues_mapM (es : list Entry) (vs : list string) :
  mapM firstValue es = Some vs → firstValues es = (vs, true).
Proof.
  intros HF%mapM_Some. induction HF as [|e v es vs He _ IH]; [done|].
  destruct (firstValue_Some _ _ He) as (a & Ha & Hv). simpl.
  by rewrite Ha, Hv, IH.
Qed.

Lemma firstValues_stop (es1 es2 : list Entry) (e : Entry) (vs : list string) :
  mapM firstValue es1 = Some vs → firstValue e = None →
  firstValues (es1 ++ e :: es2) = (vs, false).
Proof.
  intros HF%mapM_Some He. induction HF as [|e1 v es1 vs He1 _ IH]; simpl.
  - unfold firstValue in He.
    destruct (Attributes e !! 0) as [a|]; [|done]. by rewrite He.
  - destruct (firstValue_Some _ _ He1) as (a & Ha & Hv).
    by rewrite Ha, Hv, IH.
Qed.

(** X9.  When the account search returns at least one entry and every
    entry has a first value of a first attribute, the account lister
    returns; it has appended to the Account Set, in the order of the
    entries, the upper-cased first value of the first attribute of each
    entry, and nothing of their other attributes and values; the count
    it logs is the length of the whole Account Set. *)
Theorem account_lister_collects s l req res vs :
  EvSearch l req (inr res) ∈ events listADUsers s →
  Entries res ≠ [] →
  mapM firstValue (Entries res) = Some vs →
  outcome listADUsers s = Ok tt
  ∧ adUsers (exec listADUsers s) = adUsers s ++ (ToUpper <$> vs)
  ∧ length vs = length (Entries res)
  ∧ logged (events listADUsers s)
    = logLine (infoLogger s)
              (Itoa (length (adUsers s) + length (Entries res))
               +:+ " records retrieved").
Proof.
  intros Hin%searches_elem_of Hne Hvs.
  destruct (listADUsers_run s) as (_ & _ & _ & _ & _ & _ & _ & _ & H1 & _).
  destruct (H1 _ _ Hin) as [Ea Eo].
  rewrite (firstValues_mapM _ _ Hvs) in Ea, Eo. simpl in Ea, Eo.
  rewrite bool_decide_true in Eo by (destruct (Entries res); [done|simpl; lia]).
  assert (length vs = length (Entries res)) as El.
  { symmetry. eapply Forall2_length. by apply mapM_Some. }
  destruct (listADUsers_detail s) as (_ & _ & _ & _ & _ & _ & _ & H2).
  rewrite Eo in H2. rewrite H2, Ea, length_app, length_fmap, El. done.
Qed.

(** X10.  When an entry of the account search has no attribute, or its
    first attribute has no value, the account lister panics with an
    index out of range, having appended the identifiers of the entries
    before it; nothing is written to the log. *)
Theorem account_entry_without_value s l req res es1 e es2 vs :
  EvSearch l req (inr res) ∈ events listADUsers s →
  Entries res = es1 ++ e :: es2 →
  mapM firstValue es1 = Some vs →
  firstValue e = None →
  outcome listADUsers s = Panic indexError
  ∧ adUsers (exec listADUsers s) = adUsers s ++ (ToUpper <$> vs)
  ∧ logged (events listADUsers s) = [].
Proof.
  intros Hin%searches_elem_of Hes Hvs He.
  destruct (listADUsers_run s) as (_ & _ & _ & _ & _ & _ & _ & _ & H1 & _).
  destruct (H1 _ _ Hin) as [Ea Eo].
  rewrite Hes, (firstValues_stop _ _ _ _ Hvs He) in Ea, Eo. simpl in Ea, Eo.
  rewrite bool_decide_true in Eo by (rewrite length_app; simpl; lia).
  destruct (listADUsers_detail s) as (_ & _ & _ & _ & _ & _ & _ & H2).
  rewrite Eo in H2. done.
Qed.

(** X11.  When the group search returns no entry, the group member
    lister panics with an index out of range; the Group Member Set is as
    before and nothing is written to the log. *)
Theorem group_not_found_panics s l req res :
  EvSearch l req (inr res) ∈ events listGroupUsers s →
  Entries res = [] →
  outcome listGroupUsers s = Panic indexError
  ∧ groupUsers (exec listGroupUsers s) = groupUsers s
  ∧ logged (events listGroupUsers s) = [].
Proof.
  intros Hin%searches_elem_of Hes.
  destruct (listGroupUsers_run s) as (_ & _ & _ & _ & _ & _ & _ & _ & H1 & _).
  specialize (H1 _ _ Hin). rewrite Hes in H1. simpl in H1.
  destruct H1 as [Eo Eg].
  destruct (listGroupUsers_detail s) as (_ & _ & _ & _ & _ & _ & _ & H2).
  rewrite Eo in H2. done.
Qed.


(** ** Whole runs *)

Lemma synchronizeGroup_sessions s :
  oneSession 0 (events synchronizeGroup s) = true
  ∧ closed (events synchronizeGroup s) = opened (events synchronizeGroup s).
Proof.
  destruct (synchronizeGroup_steps s) as (steps & -> & _).
  simpl. split; [apply calls_oneSession | apply calls_closed].
Qed.

Lemma synchronizeGroup_logged s :
  (errorLogger s = None → infoLogger s = None →
   logged (events synchronizeGroup s) = [])
  ∧ (outcome synchronizeGroup s = Ok tt →
     logged (events synchronizeGroup s)
     = (missing (adUsers s) (groupUsers s)
        ≫= fun x => logLine (infoLogger s) (x +:+ " added to group"))).
Proof.
  destruct (synchronizeGroup_steps s) as (steps & -> & _ & _ & Hg & Hok).
  simpl. split.
  - intros He Hi. apply calls_logged_none.
    eapply Forall_impl; [exact Hg|]. intros c (_ & -> & -> & _). done.
  - intros Ho. destruct (Hok Ho) as [<- Hall].
    by rewrite (calls_logged_Ok _ Hall), (calls_info _ _ Hg).
Qed.

Lemma synchronizeGroup_requests s :
  (∀ req r, (req, r) ∈ modifies (events synchronizeGroup s) →
     ∃ x, x ∈ adUsers s ∧ (x ∉ groupUsers s)
          ∧ req = groupModify (config s) x)
  ∧ (∀ u p r, (u, p, r) ∈ binds (events synchronizeGroup s) →
       u = bindName (config s) ∧ p = Password (ActiveDirectory (config s))).
Proof.
  destruct (synchronizeGroup_steps s) as (steps & -> & _ & Hp & Hg & _).
  simpl. rewrite Forall_forall in Hg. split.
  - intros req r (c & Hc & ->)%calls_modifies_elem_of.
    destruct (Hg c Hc) as (-> & _). exists c.1.
    assert (c.1 ∈ missing (adUsers s) (groupUsers s)) as Hm.
    { apply (prefix_elem_of _ _ _ Hp). by apply list_elem_of_fmap_2. }
    by apply missing_not_elem_of in Hm as [? ?].
  - intros u p r (c & Hc & -> & ->)%calls_binds_elem_of.
    by destruct (Hg c Hc) as (-> & _).
Qed.

Lemma phases_sessions s :
  oneSession 0 (events phases s) = true
  ∧ closed (events phases s) = opened (events phases s).
Proof.
  phases_cases s.
  all: destruct (writeInfo_detail infoAD s) as (_ & _ & _ & O1 & P1 & C1).
  all: destruct (listADUsers_detail s1) as (O2 & _).
  all: destruct (listADUsers_sessions s1) as (C2 & _).
  all: destruct (writeInfo_detail infoGroup (exec listADUsers s1))
         as (_ & _ & _ & O3 & P3 & C3).
  all: destruct (listGroupUsers_detail s2) as (O4 & _).
  all: destruct (listGroupUsers_sessions s2) as (C4 & _).
  all: destruct (writeInfo_detail infoSync (exec listGroupUsers s2))
         as (_ & _ & _ & O5 & P5 & C5).
  all: destruct (synchronizeGroup_sessions s3) as (O6 & C6).
  all: rewrite ?closed_app, ?opened_app, ?C1, ?P1, ?C2, ?C3, ?P3, ?C4, ?C5,
         ?P5, ?C6.
  all: rewrite ?(oneSession_app _ _ _ O1), ?(oneSession_app _ _ _ O2),
         ?(oneSession_app _ _ _ O3), ?(oneSession_app _ _ _ O4),
         ?(oneSession_app _ _ _ O5).
  all: done.
Qed.

Lemma phases_logged s :
  (errorLogger s = None → infoLogger s = None →
   logged (events phases s) = [])
  ∧ (outcome phases s = Ok tt →
     logged (events phases s)
     = logLine (infoLogger s) infoAD
       ++ logLine (infoLogger s)
            (Itoa (length (adUsers (exec phases s))) +:+ " records retrieved")
       ++ logLine (infoLogger s) infoGroup
       ++ logLine (infoLogger s)
            (Itoa (length (groupUsers (exec phases s))) +:+ " users in group")
       ++ logLine (infoLogger s) infoSync
       ++ (missing (adUsers (exec phases s)) (groupUsers (exec phases s))
           ≫= fun x => logLine (infoLogger s) (x +:+ " added to group"))).
Proof.
  phases_cases s.
  all: destruct (writeInfo_detail infoAD s) as (L1 & _).
  all: destruct (listADUsers_detail s1) as (_ & _ & _ & _ & _ & _ & _ & L2).
  all: destruct (writeInfo_detail infoGroup (exec listADUsers s1)) as (L3 & _).
  all: destruct (listGroupUsers_detail s2) as (_ & _ & _ & _ & _ & _ & _ & L4).
  all: destruct (writeInfo_detail infoSync (exec listGroupUsers s2)) as (L5 & _).
  all: destruct (synchronizeGroup_logged s3) as (L6 & L7).
  all: rewrite ?logged_app, ?L1, ?L2, ?L3, ?L4, ?L5, ?OA, ?OG.
  all: rewrite ?I3i, ?Gi, ?I2i, ?Ai, ?I1i, ?I3e, ?Ge, ?I2e, ?Ae, ?I1e in *.
  - split.
    + intros He Hi. rewrite He, Hi in *. by rewrite (L6 eq_refl eq_refl).
    + intros Ho. rewrite (L7 Ho).
      by rewrite Sa, Sg, I3a, I3g, Ga, I2a.
  - split; [|done]. intros He Hi. rewrite He, Hi. by destruct pG.
  - split; [|done]. intros He Hi. rewrite He, Hi. by destruct pA.
Qed.

Lemma phases_requests s :
  (∀ req r, (req, r) ∈ modifies (events phases s) →
     ∃ x, x ∈ adUsers (exec phases s) ∧ (x ∉ groupUsers (exec phases s))
          ∧ req = groupModify (config s) x)
  ∧ (∀ u p r, (u, p, r) ∈ binds (events phases s) →
       u = bindName (config s) ∧ p = Password (ActiveDirectory (config s))).
Proof.
  phases_cases s.
  all: destruct (writeInfo_detail infoAD s) as (_ & M1 & B1 & _).
  all: destruct (listADUsers_detail s1) as (_ & M2 & _ & _ & B2 & _).
  all: destruct (writeInfo_detail infoGroup (exec listADUsers s1))
         as (_ & M3 & B3 & _).
  all: destruct (listGroupUsers_detail s2) as (_ & M4 & _ & _ & B4 & _).
  all: destruct (writeInfo_detail infoSync (exec listGroupUsers s2))
         as (_ & M5 & B5 & _).
  all: destruct (synchronizeGroup_requests s3) as (M6 & B6).
  all: rewrite ?modifies_app, ?binds_app, ?M1, ?M2, ?M3, ?M4, ?M5,
         ?B1, ?B3, ?B5, ?app_nil_l, ?app_nil_r.
  all: rewrite ?I3c, ?Gc, ?I2c, ?Ac, ?I1c in *.
  all: split; [try by intros ? ? ?%elem_of_nil|].
  - intros req r Hin. destruct (M6 _ _ Hin) as (x & ? & ? & ?).
    exists x. by rewrite Sa, Sg.
  - intros u p r. rewrite !elem_of_app. intros [Hin|[Hin|Hin]]; eauto.
  - intros u p r. rewrite !elem_of_app. intros [Hin|Hin]; eauto.
  - eauto.
Qed.


Lemma info_lines (lg : Logger) (xs : list string) :
  (xs ≫= fun x => logLine (Some lg) (x +:+ " added to group"))
  = pair lg <$> ((fun x => x +:+ " added to group") <$> xs).
Proof. induction xs as [|x xs IH]; [done|]. csimpl. by f_equal. Qed.

(** X12.  In a whole run of [main] a session is opened only when none is
    open and closed only when one is open; binds, searches and
    modifications happen only while one is open; no session is open
    when [main] returns or panics, and the sessions closed are, in
    order, the sessions opened. *)
Theorem one_session_at_a_time (m : Machine) s :
  oneSession 0 (events (main m) s) = true
  ∧ closed (events (main m) s) = opened (events (main m) s).
Proof.
  destruct (main_cases m s)
    as [(p & _ & -> & _)|(c0 & s0 & _ & _ & _ & _ & _ & _ & ->)]; [done|].
  apply phases_sessions.
Qed.

(** X13.  When the two loggers are unset at the start and the loaded
    configuration does not enable logging, a run of [main] writes
    nothing to the log, whether it returns or panics. *)
Theorem no_logging_no_log (m : Machine) s :
  errorLogger s = None → infoLogger s = None →
  (∀ c, loadConfig m = Ok c → Enabled (Logging c) = false) →
  logged (events (main m) s) = [].
Proof.
  intros He Hi Hoff. unfold events, exec. rewrite main_eq.
  destruct (loadConfig m) as [c|p]; [|simpl; by rewrite drop_all].
  rewrite (Hoff c eq_refl).
  change (trace s) with (trace (set_config c s)).
  by apply (phases_logged (set_config c s)).
Qed.

(** X14.  When logging is enabled, the log file opens and [main]
    returns, the log holds, in order and all from the "INFO: " logger:
    the message of the first phase, the length of the Account Set
    followed by " records retrieved", the message of the second phase,
    the length of the Group Member Set followed by " users in group",
    the message of the third phase, and for each missing account its
    identifier followed by " added to group". *)
Theorem log_of_a_complete_run (m : Machine) s c :
  loadConfig m = Ok c →
  Enabled (Logging c) = true →
  OpenFile m (Join (Location (Logging c)) (logfilename (Today m))) = None →
  outcome (main m) s = Ok tt →
  logged (events (main m) s)
  = pair {| prefix := "INFO: " |}
      <$> ([infoAD;
            Itoa (length (adUsers (exec (main m) s))) +:+ " records retrieved";
            infoGroup;
            Itoa (length (groupUsers (exec (main m) s))) +:+ " users in group";
            infoSync]
           ++ ((fun x => x +:+ " added to group")
                 <$> missing (adUsers (exec (main m) s))
                             (groupUsers (exec (main m) s)))).
Proof.
  intros Hload Hen Hopen. unfold outcome, events, exec.
  rewrite main_eq, Hload, Hen, Hopen.
  set (s0 := set_loggers (Some {| prefix := "ERROR: " |})
                         (Some {| prefix := "INFO: " |}) (set_config c s)).
  change (trace s) with (trace s0). intros Ho.
  destruct (phases_logged s0) as [_ HL].
  unfold outcome, events, exec in HL. rewrite (HL Ho). simpl. do 5 f_equal.
  apply (info_lines {| prefix := "INFO: " |}).
Qed.

(** X15.  Every modification requested in a run of [main] is the
    addition, to the configured group entry, of an identifier that is
    in the Account Set and not in the Group Member Set: the listers
    request none, and the program never requests anything else. *)
Theorem modifications_only_add_missing (m : Machine) s l req r :
  EvModify l req r ∈ events (main m) s →
  ∃ x, x ∈ adUsers (exec (main m) s)
       ∧ (x ∉ groupUsers (exec (main m) s))
       ∧ req = groupModify (config (exec (main m) s)) x.
Proof.
  destruct (main_cases m s)
    as [(p & _ & -> & _)|(c0 & s0 & _ & _ & _ & _ & _ & -> & ->)].
  { by intros ?%elem_of_nil. }
  intros Hin%modifies_elem_of.
  destruct (phases_frame s0) as (-> & _).
  by apply (phases_requests s0) in Hin.
Qed.

(** X16.  Every bind of a run of [main] is made with the name
    "<domain>\<username>" and the password of the loaded
    configuration. *)
Theorem binds_use_the_configuration (m : Machine) s l u p r :
  EvBind l u p r ∈ events (main m) s →
  u = Domain (ActiveDirectory (config (exec (main m) s))) +:+ "\"
      +:+ Username (ActiveDirectory (config (exec (main m) s)))
  ∧ p = Password (ActiveDirectory (config (exec (main m) s))).
Proof.
  destruct (main_cases m s)
    as [(p0 & _ & -> & _)|(c0 & s0 & _ & _ & _ & _ & _ & -> & ->)].
  { by intros ?%elem_of_nil. }
  intros Hin%binds_elem_of.
  destruct (phases_frame s0) as (-> & _).
  by apply (phases_requests s0) in Hin.
Qed.

End RunDetails.

(** ** The log file *)

Lemma one_digit_day (d : nat) :
  (1 ≤ d ≤ 9)%nat →
  Itoa 1 +:+ Itoa (10 + d) +:+ ".log" = Itoa 11 +:+ Itoa d +:+ ".log".
Proof.
  intros Hd.
  do 10 (destruct d as [|d]; [first [lia | by vm_compute]|]). lia.
Qed.

(** X18.  The name of the log file does not tell the dates apart: the
    month and the day are written without padding, so for a day [d]
    from 1 to 9 the file of the day [10 + d] of January is the file of
    the day [d] of November of the same year. *)
Theorem log_file_names_collide (y d : nat) :
  (1 ≤ d ≤ 9)%nat →
  logfilename (y, 1, 10 + d) = logfilename (y, 11, d).
Proof.
  intros Hd. unfold logfilename. cbn [fst snd].
  by rewrite (one_digit_day d Hd).
Qed.

(** * The further properties on examples *)

Import Toy Script.

Lemma one_session_per_call_witness :
  let s := ready ["ALICE"; "BOB"; "CARL"] ["BOB"] [] in
  outcome synchronizeGroup s = Ok tt
  ∧ modifies (events synchronizeGroup s)
    = [(groupModify (config s) "ALICE", None);
       (groupModify (config s) "CARL", None)].
Proof.
  intros s. split; [by vm_compute|].
  apply (proj2 (proj2 (one_session_per_call s))). by vm_compute.
Defined.

Lemma nothing_missing_no_contact_witness :
  let s := ready ["ALICE"; "BOB"] ["BOB"; "ALICE"] [] in
  outcome synchronizeGroup s = Ok tt
  ∧ events synchronizeGroup s = [EvEnter FsynchronizeGroup]
  ∧ server (exec synchronizeGroup s) = server s.
Proof.
  intros s. apply (nothing_missing_no_contact s).
  intros x Hx. apply (bool_decide_unpack _).
  apply elem_of_cons in Hx as [->|Hx]; [by vm_compute|].
  apply list_elem_of_singleton in Hx as ->. by vm_compute.
Defined.

Lemma empty_group_provisions_all_witness :
  let s := ready ["ALICE"; "BOB"] [] [] in
  provisioned (events synchronizeGroup s) = ["ALICE"; "BOB"].
Proof.
  intros s. apply (empty_group_provisions_all s); by vm_compute.
Defined.

Lemma connection_failure_is_fatal_witness :
  let s := initial {| dialAnswer := Some "connection refused";
                      bindAnswer := None;
                      searchAnswer := inr {| Entries := [] |};
                      modifyAnswer := None |} in
  outcome listADUsers s
  = Panic (PanicError "unable to connect to AD server: connection refused")
  ∧ opened (events listADUsers s) = []
  ∧ binds (events listADUsers s) = []
  ∧ adUsers (exec listADUsers s) = [].
Proof.
  intros s.
  destruct (proj1 (connection_failure_is_fatal s "" "ldap://:389"
                     "connection refused")) as (E1 & E2 & E3 & E4).
  - apply list_elem_of_lookup_2 with 1. by vm_compute.
  - split; [exact E1|]. split; [exact E2|]. split; [exact E3|exact E4].
Defined.

Lemma bind_failure_is_fatal_witness :
  let s := initial {| dialAnswer := None;
                      bindAnswer := Some "invalid credentials";
                      searchAnswer := inr {| Entries := [] |};
                      modifyAnswer := None |} in
  outcome (addUserToGroup "CN=ALICE") s
  = Panic (PanicError "unable to bind to ldap: invalid credentials")
  ∧ modifies (events (addUserToGroup "CN=ALICE") s) = [].
Proof.
  intros s.
  destruct (proj2 (proj2 (bind_failure_is_fatal s "CN=ALICE" 7 "\" ""
                            "invalid credentials"))) as (E1 & E2).
  - apply list_elem_of_lookup_2 with 2. by vm_compute.
  - split; [exact E1|exact E2].
Defined.

Lemma search_failure_is_fatal_witness :
  let s := initial {| dialAnswer := None; bindAnswer := None;
                      searchAnswer := inl "no such object";
                      modifyAnswer := None |} in
  outcome listGroupUsers s
  = Panic (PanicError "ldap search error: no such object")
  ∧ groupUsers (exec listGroupUsers s) = [].
Proof.
  intros s.
  destruct (proj2 (search_failure_is_fatal s 7 (groupSearch (config s))
                     "no such object")) as (E1 & E2).
  - apply list_elem_of_lookup_2 with 3. by vm_compute.
  - split; [exact E1|exact E2].
Defined.

Lemma provisioner_outcome_witness :
  let s := initial {| dialAnswer := None; bindAnswer := None;
                      searchAnswer := inr {| Entries := [] |};
                      modifyAnswer := Some "insufficient access rights" |} in
  outcome (addUserToGroup "CN=ALICE") s
  = Panic (PanicError "ldap modify error: insufficient access rights").
Proof.
  intros s.
  destruct (proj1 (provisioner_outcome "CN=ALICE" s) 7
              (groupModify (config s) "CN=ALICE")
              (Some "insufficient access rights")) as (_ & E).
  - apply list_elem_of_lookup_2 with 3. by vm_compute.
  - exact E.
Defined.

Lemma requests_follow_a_bind_witness :
  let s := initial (healthy [group ["cn=bob"]]) in
  binds (events listGroupUsers s) = [("\", "", None)].
Proof.
  intros s.
  apply (proj1 (proj2 (requests_follow_a_bind s "" 7))
           (groupSearch (config s)) (inr {| Entries := [group ["cn=bob"]] |})).
  apply list_elem_of_lookup_2 with 3. by vm_compute.
Defined.

Lemma account_lister_collects_witness :
  let s := initial (healthy [user "cn=alice"; user "cn=Bob"]) in
  outcome listADUsers s = Ok tt
  ∧ adUsers (exec listADUsers s) = ["CN=ALICE"; "CN=BOB"].
Proof.
  intros s.
  destruct (account_lister_collects s 7 (userSearch (config s))
              {| Entries := [user "cn=alice"; user "cn=Bob"] |}
              ["cn=alice"; "cn=Bob"]) as (E1 & E2 & _).
  - apply list_elem_of_lookup_2 with 3. by vm_compute.
  - done.
  - done.
  - split; [exact E1|exact E2].
Defined.

Lemma account_entry_without_value_witness :
  let ghost := {| DN := "cn=ghost"; Attributes := [] |} in
  let s := initial (healthy [user "cn=alice"; ghost; user "cn=Bob"]) in
  outcome listADUsers s = Panic (PanicRuntime "index out of range")
  ∧ adUsers (exec listADUsers s) = ["CN=ALICE"]
  ∧ logged (events listADUsers s) = [].
Proof.
  intros ghost s.
  destruct (account_entry_without_value s 7 (userSearch (config s))
              {| Entries := [user "cn=alice"; ghost; user "cn=Bob"] |}
              [user "cn=alice"] ghost [user "cn=Bob"] ["cn=alice"])
    as (E1 & E2 & E3).
  - apply list_elem_of_lookup_2 with 3. by vm_compute.
  - done.
  - done.
  - done.
  - split; [exact E1|]. split; [exact E2|exact E3].
Defined.

Lemma group_not_found_panics_witness :
  let s := initial (healthy []) in
  outcome listGroupUsers s = Panic (PanicRuntime "index out of range")
  ∧ groupUsers (exec listGroupUsers s) = []
  ∧ logged (events listGroupUsers s) = [].
Proof.
  intros s.
  destruct (group_not_found_panics s 7 (groupSearch (config s))
              {| Entries := [] |}) as (E1 & E2 & E3).
  - apply list_elem_of_lookup_2 with 3. by vm_compute.
  - done.
  - split; [exact E1|]. split; [exact E2|exact E3].
Defined.

Lemma no_logging_no_log_witness :
  let s := initial (directory ["cn=alice"] [group []] ["CN=ALICE"]) in
  logged (events (main (machine ∅ true)) s) = [].
Proof.
  intros s. apply (no_logging_no_log (machine ∅ true) s); [done|done|].
  intros c E. vm_compute in E. by injection E as <-.
Defined.

Lemma log_of_a_complete_run_witness :
  let m := machine {["logging.enabled" := VBool true]} true in
  let s := initial (directory ["cn=alice"; "cn=Bob"] [group ["CN=bob"]] []) in
  logged (events (main m) s)
  = pair {| prefix := "INFO: " |}
      <$> ["Loading the list of users from Active Directory";
           "2 records retrieved";
           "Loading the list of users in group";
           "1 users in group";
           "Synchronizing group membership";
           "CN=ALICE added to group"].
Proof.
  intros m s.
  etrans; [apply (log_of_a_complete_run m s (config (exec (main m) s)));
           by vm_compute|].
  by vm_compute.
Defined.

Lemma modifications_only_add_missing_witness :
  let m := machine ∅ true in
  let s := initial (directory ["cn=alice"; "cn=Bob"] [group ["CN=bob"]] []) in
  ∃ x, x ∈ adUsers (exec (main m) s)
       ∧ (x ∉ groupUsers (exec (main m) s))
       ∧ groupModify (config (exec (main m) s)) "CN=ALICE"
         = groupModify (config (exec (main m) s)) x.
Proof.
  intros m s.
  apply (modifications_only_add_missing m s 0
           (groupModify (config (exec (main m) s)) "CN=ALICE") None).
  apply list_elem_of_lookup_2 with 14. by vm_compute.
Defined.

Lemma binds_use_the_configuration_witness :
  let m := machine {["activedirectory.domain" := VString "CORP";
                     "activedirectory.username" := VString "sync"]} true in
  let s := initial (directory ["cn=alice"] [group []] []) in
  "CORP\sync"
  = Domain (ActiveDirectory (config (exec (main m) s))) +:+ "\"
    +:+ Username (ActiveDirectory (config (exec (main m) s)))
  ∧ "" = Password (ActiveDirectory (config (exec (main m) s))).
Proof.
  intros m s. apply (binds_use_the_configuration m s 0 "CORP\sync" "" None).
  apply list_elem_of_lookup_2 with 2. by vm_compute.
Defined.

Lemma log_file_names_collide_witness :
  logfilename (2024, 1, 12) = logfilename (2024, 11, 2)
  ∧ logfilename (2024, 11, 2) = "adsync2024112.log".
Proof.
  split; [apply (log_file_names_collide 2024 2); lia | by vm_compute].
Defined.
